(** * Visual comparison pipeline of playwright-sheridan

    A shallow embedding of [src/tests/visualTest.spec.js] (the helpers
    [imageToBase64], [resizeImage], [compareScreenshots],
    [captureScreenshot], [generateHtmlReport], the loop of the test
    "Compare staging and prod screenshots and generate HTML report", and the
    four tests that drive a page: broken images, the two form tests and the
    menus, module [Browser]) and of [src/config.js], followed by the
    properties of the pipeline and of the browser tests.

    Conventions.
    - A JavaScript number is modelled by the value it denotes: a rational,
      an infinity or NaN ([Number.number]); the sign of zero is not
      represented.  The quotient and the product of the similarity are
      rounded as binary64 rounds them ([Binary64.round]).  The other
      arithmetic of the script is exact in binary64 or used for its sign
      only: counts of pixels are integers below 2^53, and the difference the
      sort compares to zero has the sign of the exact difference.
    - The file system is a finite map from path to file content; directories
      are not represented ([fs.mkdirSync] has no effect in the model).
    - The libraries the script calls (Playwright, sharp, pngjs, pixelmatch,
      [path.extname], base64 encoding, the clock) are fields of the record
      [externals]; [Array.prototype.sort] is modelled after the engine Node.js
      runs (section [ArraySort]). *)

From Stdlib Require Import ZArith QArith Qround Qabs Qpower Lia Lqa.
From Stdlib Require Import Permutation Sorted Ascii.
From Stdlib Require Strings.Byte SpecFloat.
From stdpp Require Import base strings list gmap pretty.

Local Open Scope string_scope.

(** ** JavaScript numbers *)

Module Number.

Inductive number : Type :=
  | Fin (q : Q)          (* a finite value *)
  | Inf (neg : bool)     (* +Infinity ([neg = false]) and -Infinity *)
  | NaN.

Definition of_Z (z : Z) : number := Fin (inject_Z z).

(** [a - b] *)
Definition sub (a b : number) : number :=
  match a, b with
  | NaN, _ | _, NaN => NaN
  | Fin x, Fin y => Fin (Qred (x - y))
  | Fin _, Inf s => Inf (negb s)
  | Inf s, Fin _ => Inf s
  | Inf s, Inf t => if Bool.eqb s t then NaN else Inf s
  end.

(** [a * b] *)
Definition mul (a b : number) : number :=
  match a, b with
  | NaN, _ | _, NaN => NaN
  | Fin x, Fin y => Fin (Qred (x * y))
  | Fin x, Inf s | Inf s, Fin x =>
      match (x ?= 0)%Q with
      | Eq => NaN
      | Lt => Inf (negb s)
      | Gt => Inf s
      end
  | Inf s, Inf t => Inf (xorb s t)
  end.

(** [a / b]; a zero divisor is the positive zero. *)
Definition div (a b : number) : number :=
  match a, b with
  | NaN, _ | _, NaN => NaN
  | Fin x, Fin y =>
      match (y ?= 0)%Q with
      | Eq => match (x ?= 0)%Q with
              | Eq => NaN
              | Lt => Inf true
              | Gt => Inf false
              end
      | _ => Fin (Qred (x / y))
      end
  | Fin _, Inf _ => Fin 0
  | Inf s, Fin y => match (y ?= 0)%Q with Lt => Inf (negb s) | _ => Inf s end
  | Inf _, Inf _ => NaN
  end.

(** [a < b] *)
Definition ltb (a b : number) : bool :=
  match a, b with
  | NaN, _ | _, NaN => false
  | Fin x, Fin y => negb (Qle_bool y x)
  | Fin _, Inf s => negb s
  | Inf s, Fin _ => s
  | Inf s, Inf t => s && negb t
  end.

(** [a >= b] *)
Definition geb (a b : number) : bool :=
  match a, b with
  | NaN, _ | _, NaN => false
  | Fin x, Fin y => Qle_bool y x
  | Fin _, Inf s => s
  | Inf s, Fin _ => negb s
  | Inf s, Inf t => negb s || t
  end.

Definition is_nan (a : number) : bool :=
  match a with NaN => true | _ => false end.

(** Decimal digits of a natural number, at least [3] of them. *)
Definition digits3 (n : N) : string :=
  let d := pretty n in
  match String.length d with
  | 1%nat => "00" ++ d
  | 2%nat => "0" ++ d
  | _ => d
  end.

(** [x.toFixed(2)] for a finite [x >= 0]: the integer [n] nearest to
    [100 x], the larger one on a tie, printed with a point before its last
    two digits.  (Above [10^21] JavaScript prints an exponent instead; the
    model keeps printing digits.) *)
Definition toFixed2_nonneg (x : Q) : string :=
  let n := Z.to_N (Qfloor (x * 100 + (1 # 2))) in
  let d := digits3 n in
  let k := String.length d in
  String.substring 0 (k - 2) d ++ "." ++ String.substring (k - 2) 2 d.

(** [x.toFixed(2)] *)
Definition toFixed2 (a : number) : string :=
  match a with
  | NaN => "NaN"
  | Inf false => "Infinity"
  | Inf true => "-Infinity"
  | Fin x => if Qle_bool 0 x then toFixed2_nonneg x
             else "-" ++ toFixed2_nonneg (- x)
  end.

End Number.

Import Number.

(** ** Rounding to binary64

    A JavaScript number is an IEEE 754 binary64 value: 53 bits of precision,
    exponents from -1022 to 1023, results rounded to the nearest value, to
    the one with an even last bit on a tie. *)

Module Binary64.

(** The integer nearest to [y], the even one of the two on a tie. *)
Definition nearest_even (y : Q) : Z :=
  let f := Qfloor y in
  match (y - inject_Z f ?= 1 # 2)%Q with
  | Lt => f
  | Gt => (f + 1)%Z
  | Eq => if Z.even f then f else (f + 1)%Z
  end.

(** For [a > 0], the integer [e] with [2^e <= a < 2^(e+1)]. *)
Definition exponent (a : Q) : Z :=
  let e := (Z.log2 (Qnum a) - Z.log2 (Zpos (Qden a)))%Z in
  if Qle_bool (2 ^ e)%Q a then e else (e - 1)%Z.

(** For [a > 0], the nearest multiple of the unit in the last place of [a]:
    [2^(e-52)] for the exponent [e] of [a], and [2^(-1074)] below
    [2^(-1022)], where the values are evenly spaced. *)
Definition to_nearest (a : Q) : Q :=
  let e := Z.max (exponent a) (-1022) in
  (inject_Z (nearest_even (a * 2 ^ (52 - e))) * 2 ^ (e - 52))%Q.

(** The binary64 value of the real number [x]; an infinity from [2^1024]
    on. *)
Definition round (x : Q) : number :=
  match (x ?= 0)%Q with
  | Eq => Fin 0
  | Gt => let r := to_nearest x in
          if Qle_bool (2 ^ 1024)%Q r then Inf false else Fin (Qred r)
  | Lt => let r := to_nearest (- x) in
          if Qle_bool (2 ^ 1024)%Q r then Inf true else Fin (Qred (- r))
  end.

(** The result of an operation, as the machine stores it. *)
Definition rounded (a : number) : number :=
  match a with Fin x => round x | _ => a end.

End Binary64.

(** The similarity as the IEEE 754 specification of the standard library
    ([SpecFloat], the specification of Rocq's own binary64 numbers) computes
    it, to compare [Binary64.round] with. *)

Module IEEE.

Definition of_integer (z : Z) : SpecFloat.spec_float :=
  match z with
  | Z0 => SpecFloat.S754_zero false
  | Zpos p => SpecFloat.S754_finite false p 0
  | Zneg p => SpecFloat.S754_finite true p 0
  end.

Definition to_number (f : SpecFloat.spec_float) : number :=
  match f with
  | SpecFloat.S754_zero _ => Fin 0
  | SpecFloat.S754_infinity s => Inf s
  | SpecFloat.S754_nan => NaN
  | SpecFloat.S754_finite s m e =>
      Fin (Qred ((if s then -1 else 1) * inject_Z (Zpos m) * 2 ^ e))
  end.

(** [(matchedPixels / totalPixels) * 100] *)
Definition percentage_of_matched (totalPixels mismatchedPixels : Z) : number :=
  to_number
    (SpecFloat.SFmul 53 1024
       (SpecFloat.SFdiv 53 1024
          (of_integer (totalPixels - mismatchedPixels)) (of_integer totalPixels))
       (of_integer 100)).

End IEEE.

(** ** Values and result records *)

(** The [similarityPercentage] field holds a number or a string
    (["Error"], ["Size mismatch"]). *)
Inductive value : Type :=
  | VNum (n : number)
  | VStr (s : string).

(** [typeof v === "number"] *)
Definition is_number (v : value) : bool :=
  match v with VNum _ => true | VStr _ => false end.

(** [v === s] for a string literal [s] *)
Definition is_string (s : string) (v : value) : bool :=
  match v with VStr t => bool_decide (t = s) | VNum _ => false end.

(** The object pushed on [results]:
    [{ pagePath, similarityPercentage }] in the normal branch,
    [{ pagePath, similarityPercentage: "Error", error: error.message }] in
    the [catch] branch. *)
Record result : Type := mkResult {
  pagePath : string;
  similarityPercentage : value;
  error : option string
}.

(** ** Artifact names *)

(** [s.replace(/\//g, "_")] *)
Fixpoint replace_slash (s : string) : string :=
  match s with
  | EmptyString => EmptyString
  | String c s' =>
      String (if Ascii.eqb c "/"%char then "_"%char else c) (replace_slash s')
  end.

(** [path.join(a, b, c)] on POSIX, for segments that need no normalisation
    (the script joins ["screenshots/Desktop"], a directory name and a file
    name without separator). *)
Definition path_join3 (a b c : string) : string := a ++ "/" ++ b ++ "/" ++ c.

(** The characters of a string, for statements about its content. *)
Fixpoint chars (s : string) : list ascii :=
  match s with
  | EmptyString => []
  | String c s' => c :: chars s'
  end.

(** ** [Array.prototype.sort]

    The script runs on Node.js, whose engine sorts with TimSort: it finds the
    run the array starts with (reversing it when it is strictly descending)
    and extends it by binary insertion up to the minimal run length.  Below
    64 elements the minimal run length is the length of the array, so the
    whole sort is [count_and_make_run] followed by [binary_insertion_sort];
    no merge happens.  The model is that path.  It is the engine's result for
    every array shorter than 64 (the configured page set has 27 entries),
    and for longer arrays whenever the comparator is a consistent ordering of
    the elements, since both are then the stable sort. *)

Section ArraySort.
Context {A : Type} (comparefn : A → A → number).

(** The engine calls the comparator, reads NaN as [+0], and only tests
    [order < 0]. *)
Definition order_lt0 (x y : A) : bool := ltb (comparefn x y) (Fin 0).

(** The loop of [CountAndMakeRun]: each element is compared with its
    predecessor; the run ends at the first element that breaks the
    direction. *)
Fixpoint extend_run (desc : bool) (prev : A) (l : list A) : list A * list A :=
  match l with
  | [] => ([], [])
  | cur :: l' =>
      if Bool.eqb (order_lt0 cur prev) desc
      then let '(run, rest) := extend_run desc cur l' in (cur :: run, rest)
      else ([], l)
  end.

(** A run as [extend_run] accepts it: every element compares with the one
    before it the way the run goes. *)
Fixpoint chain (desc : bool) (prev : A) (l : list A) : Prop :=
  match l with
  | [] => True
  | cur :: l' => order_lt0 cur prev = desc ∧ chain desc cur l'
  end.

Definition count_and_make_run (l : list A) : list A * list A :=
  match l with
  | a0 :: a1 :: l' =>
      let desc := order_lt0 a1 a0 in
      let '(run, rest) := extend_run desc a1 l' in
      let run := a0 :: a1 :: run in
      (if desc then rev run else run, rest)
  | _ => (l, [])
  end.

(** The search of [BinaryInsertionSort] for the place of [pivot] in the
    sorted prefix: [order < 0] moves [right] to [mid], anything else moves
    [left] past [mid].  [right - left] shrinks at every step, so
    [length sorted] steps are enough. *)
Fixpoint binary_search (fuel : nat) (sorted : list A) (pivot : A)
    (left right : nat) : nat :=
  match fuel with
  | O => left
  | S fuel' =>
      if (left <? right)%nat then
        let mid := (left + (right - left) / 2)%nat in
        match sorted !! mid with
        | Some x =>
            if order_lt0 pivot x
            then binary_search fuel' sorted pivot left mid
            else binary_search fuel' sorted pivot (S mid) right
        | None => left
        end
      else left
  end.

Definition insert_pivot (sorted : list A) (pivot : A) : list A :=
  let left := binary_search (length sorted) sorted pivot 0 (length sorted) in
  take left sorted ++ pivot :: drop left sorted.

Definition binary_insertion_sort (sorted rest : list A) : list A :=
  foldl insert_pivot sorted rest.

Definition array_sort (l : list A) : list A :=
  let '(run, rest) := count_and_make_run l in
  binary_insertion_sort run rest.
End ArraySort.

(** ** The outside world *)

Definition bytes : Type := list Byte.byte.

Global Instance byte_eq_dec : EqDecision Byte.byte.
Proof.
  intros x y. destruct (Byte.eqb x y) eqn:Heq.
  - left. by apply Byte.byte_dec_bl.
  - right. intros ->. by rewrite Byte.byte_dec_lb in Heq.
Defined.

(** A decoded PNG: [width], [height] and the RGBA buffer [data]. *)
Record raster : Type := mkRaster {
  width : N;
  height : N;
  data : bytes
}.

(** What a call that can throw gives back. *)
Inductive outcome (A : Type) : Type :=
  | Ok (a : A)
  | Throw (message : string).
Arguments Ok {A} a.
Arguments Throw {A} message.

(** The libraries behind the script. *)
Record externals : Type := mkExternals {
  (** Playwright, [page.goto(url, ...)] then [page.screenshot({ path,
      fullPage: true })]: the bytes of the capture, or the message of the
      error thrown. *)
  acquire : string → outcome bytes;
  (** [sharp(buffer).resize(width, height, { fit: "contain", background })
      .toBuffer()] *)
  sharp_resize : bytes → N → N → outcome bytes;
  (** [PNG.sync.read] and [PNG.sync.write] *)
  png_read : bytes → outcome raster;
  png_write : raster → bytes;
  (** pixelmatch at threshold 0.1: whether the pixel at an index counts as
      different (colour distance above the threshold and not anti-aliasing),
      and the content it draws into the output buffer. *)
  pixel_differs : raster → raster → nat → bool;
  draw_mask : raster → raster → bytes;
  (** [Buffer.toString("base64")], [path.extname], [new Date().toLocaleString()] *)
  base64 : bytes → string;
  extname : string → string;
  now : string
}.

(** The state the script acts on: the files on disk and the lines written to
    the console (colour left out). *)
Record world : Type := mkWorld {
  files : gmap string bytes;
  console : list string
}.

(** A computation that reads and writes the world and may throw; what it did
    before throwing stays done. *)
Definition M (A : Type) : Type := world → outcome A * world.

Global Instance M_ret : MRet M := λ A a w, (Ok a, w).
Global Instance M_bind : MBind M := λ A B k m w,
  match m w with
  | (Ok a, w') => k a w'
  | (Throw message, w') => (Throw message, w')
  end.
Definition lift {A} (o : outcome A) : M A := λ w, (o, w).

(** [console.log] and [console.error] *)
Definition log (line : string) : M unit :=
  λ w, (Ok tt, mkWorld (files w) (console w ++ [line])).

(** [fs.existsSync], [fs.readFileSync], [fs.writeFileSync] *)
Definition existsSync (path : string) : M bool :=
  λ w, (Ok (bool_decide (is_Some (files w !! path))), w).

Definition readFileSync (path : string) : M bytes :=
  λ w, match files w !! path with
       | Some b => (Ok b, w)
       | None => (Throw ("ENOENT: no such file or directory, open '" ++ path ++ "'"), w)
       end.

Definition writeFileSync (path : string) (content : bytes) : M unit :=
  λ w, (Ok tt, mkWorld (<[path := content]> (files w)) (console w)).

(** [try { body } catch (error) { handler(error.message) }] *)
Definition try_catch {A} (body : M A) (handler : string → M A) : M A :=
  λ w, match body w with
       | (Ok a, w') => (Ok a, w')
       | (Throw message, w') => handler message w'
       end.

(** ** Configuration ([src/config.js]) *)

Record environment : Type := mkEnvironment {
  baseUrl : string;
  urls : list string
}.

Record config : Type := mkConfig {
  staging : environment;
  prod : environment
}.

Definition sheridan_config : config :=
  {| staging :=
       {| baseUrl := "https://live-web-sheridan.pantheonsite.io";
          urls :=
            [ "/";
              "/about/";
              "/academic-calendar/";
              "/admissions/";
              "/apply/";
              "/apply/?d={internal_program_code}";
              "/apply/?d=SHERIDAN.CA-B-BCPTRSCI";
              "/apply/?d=SHERIDAN.CA-B-BINFOSCICBRSEC";
              "/apply/?d=SHERIDAN.CA-B-BSCLCMTYDEV";
              "/apply/?d=SHERIDAN.CA-B-GENARTSSCIIS";
              "/apply/?d=URI-B-RNBS";
              "/apply/?d=URI-B-RNBS&calculator=true";
              "/degrees/area/";
              "/degrees/area/prototype/";
              "/privacy-policy/";
              "/degrees/undergraduate/";
              "/degrees/undergraduate/bachelors-computer-information-science/";
              "/degrees/";
              "/degrees/undergraduate/bachelors-computer-information-science/cyber-security/";
              "/degrees/undergraduate/bachelors-computer-information-science/general/";
              "/degrees/undergraduate/bachelors-social-community-development/";
              "/degrees/undergraduate/general-arts-science-university-profile/";
              "/online-experience/";
              "/request-info/";
              "/apply?d=URI-B-RNBS&calculator=true";
              "/student-services/";
              "/tuition/" ] |};
     prod :=
       {| baseUrl := "https://online.sheridancollege.ca";
          urls :=
            [ "https://online.sheridancollege.ca/";
              "https://online.sheridancollege.ca/about/";
              "https://online.sheridancollege.ca/academic-calendar/";
              "https://online.sheridancollege.ca/admissions/";
              "https://online.sheridancollege.ca/apply/";
              "https://online.sheridancollege.ca/apply/?d={internal_program_code}";
              "https://online.sheridancollege.ca/apply/?d=SHERIDAN.CA-B-BCPTRSCI";
              "https://online.sheridancollege.ca/apply/?d=SHERIDAN.CA-B-BINFOSCICBRSEC";
              "https://online.sheridancollege.ca/apply/?d=SHERIDAN.CA-B-BSCLCMTYDEV";
              "https://online.sheridancollege.ca/apply/?d=SHERIDAN.CA-B-GENARTSSCIIS";
              "https://online.sheridancollege.ca/apply/?d=URI-B-RNBS";
              "https://online.sheridancollege.ca/apply/?d=URI-B-RNBS&calculator=true";
              "https://online.sheridancollege.ca/degrees/area/";
              "https://online.sheridancollege.ca/degrees/area/prototype/";
              "https://online.sheridancollege.ca/privacy-policy/";
              "https://online.sheridancollege.ca/degrees/undergraduate/";
              "https://online.sheridancollege.ca/degrees/undergraduate/bachelors-computer-information-science/";
              "https://online.sheridancollege.ca/degrees/";
              "https://online.sheridancollege.ca/degrees/undergraduate/bachelors-computer-information-science/cyber-security/";
              "https://online.sheridancollege.ca/degrees/undergraduate/bachelors-computer-information-science/general/";
              "https://online.sheridancollege.ca/degrees/undergraduate/bachelors-social-community-development/";
              "https://online.sheridancollege.ca/degrees/undergraduate/general-arts-science-university-profile/";
              "https://online.sheridancollege.ca/online-experience/";
              "https://online.sheridancollege.ca/request-info/";
              "https://online.sheridancollege.ca/apply?d=URI-B-RNBS&calculator=true";
              "https://online.sheridancollege.ca/student-services/";
              "https://online.sheridancollege.ca/tuition/" ] |} |}.

(** ** Helper functions of the script *)

Section Pipeline.
Variable E : externals.

(** [s.replace(".", "")]: the first point is removed. *)
Fixpoint remove_first_dot (s : string) : string :=
  match s with
  | EmptyString => EmptyString
  | String c s' =>
      if Ascii.eqb c "."%char then s' else String c (remove_first_dot s')
  end.

(** [imageToBase64(imagePath)], reading the files [fs]. *)
Definition imageToBase64 (fs : gmap string bytes) (imagePath : string)
    : option string :=
  match fs !! imagePath with
  | Some imageData =>
      let ext := remove_first_dot (extname E imagePath) in
      Some ("data:image/" ++ ext ++ ";base64," ++ base64 E imageData)
  | None => None
  end.

(** [resizeImage(imagePath, width, height)] *)
Definition resizeImage (imagePath : string) (w h : N) : M unit :=
  buffer ← readFileSync imagePath;
  resizedBuffer ← lift (sharp_resize E buffer w h);
  writeFileSync imagePath resizedBuffer.

(** The pixels pixelmatch counts: indices below [len] that differ. *)
Fixpoint count_differing (img1 img2 : raster) (len : nat) : nat :=
  match len with
  | O => O
  | S i =>
      (if pixel_differs E img1 img2 i then 1 else 0)
      + count_differing img1 img2 i
  end.

(** [pixelmatch(img1.data, img2.data, output, width, height, options)]:
    [output] is the length of the output buffer, or [None] for [null].
    The call throws on buffers whose sizes disagree, returns [0] at once
    for identical buffers and the number of differing pixels otherwise. *)
Definition pixelmatch (img1 img2 : raster) (output : option N) (w h : N)
    : outcome nat :=
  let len1 := N.of_nat (length (data img1)) in
  let len2 := N.of_nat (length (data img2)) in
  if negb (len1 =? len2)%N
     || match output with Some o => negb (o =? len1)%N | None => false end
  then Throw "Image sizes do not match."
  else if negb (len1 =? w * h * 4)%N
  then Throw "Image data size does not match width/height."
  else if bool_decide (data img1 = data img2) then Ok O
  else Ok (count_differing img1 img2 (N.to_nat (w * h))).

(** [(matchedPixels / totalPixels) * 100] with
    [matchedPixels = totalPixels - mismatchedPixels]: the difference of two
    counts of pixels is exact, the quotient is rounded, and so is its
    product with 100. *)
Definition similarity (totalPixels : N) (mismatchedPixels : nat) : number :=
  let matchedPixels :=
    sub (of_Z (Z.of_N totalPixels)) (of_Z (Z.of_nat mismatchedPixels)) in
  Binary64.rounded
    (mul (Binary64.rounded (div matchedPixels (of_Z (Z.of_N totalPixels))))
       (Fin 100)).

(** [compareScreenshots(baselinePath, currentPath, diffPath)] *)
Definition compareScreenshots (baselinePath currentPath diffPath : string)
    : M value :=
  haveBaseline ← existsSync baselinePath;
  haveCurrent ← existsSync currentPath;
  if negb haveBaseline || negb haveCurrent then
    log ("Missing file(s): " ++ baselinePath ++ " or " ++ currentPath);;
    mret (VStr "Error")
  else
    resizeImage baselinePath 1280 800;;
    resizeImage currentPath 1280 800;;
    file1 ← readFileSync baselinePath;
    img1 ← lift (png_read E file1);
    file2 ← readFileSync currentPath;
    img2 ← lift (png_read E file2);
    if negb (width img1 =? width img2)%N
       || negb (height img1 =? height img2)%N then
      log ("Size mismatch for " ++ baselinePath ++ " and " ++ currentPath);;
      mret (VStr "Size mismatch")
    else
      let diffLength := (width img1 * height img1 * 4)%N in
      lift (pixelmatch img1 img2 (Some diffLength) (width img1) (height img1));;
      let diff := mkRaster (width img1) (height img1) (draw_mask E img1 img2) in
      writeFileSync diffPath (png_write E diff);;
      let totalPixels := (width img1 * height img1)%N in
      mismatchedPixels ←
        lift (pixelmatch img1 img2 None (width img1) (height img1));
      mret (VNum (similarity totalPixels mismatchedPixels)).

(** [captureScreenshot(page, url, screenshotPath)]: whatever the capture
    throws is caught and written to the console. *)
Definition captureScreenshot (url screenshotPath : string) : M unit :=
  try_catch
    (log ("Navigating to: " ++ url);;
     capture ← lift (acquire E url);
     writeFileSync screenshotPath capture;;
     log ("Screenshot captured: " ++ screenshotPath))
    (λ message,
       log ("Failed to capture screenshot for " ++ url ++ ": " ++ message)).
End Pipeline.

(** ** The report *)

(** One table row of the report, by the values interpolated into it. *)
Record report_row : Type := mkRow {
  staging_href : string;
  prod_href : string;
  similarity_cell : string;
  status_class : string;
  status_text : string;
  staging_image : option string;   (* [None] is rendered as "N/A" *)
  prod_image : option string;
  diff_image : option string
}.

(** The document written to [visual_comparison_report_<device>.html], by the
    values interpolated into the template. *)
Record report_document : Type := mkDocument {
  device : string;
  staging_base : string;
  prod_base : string;
  total_pages : nat;
  passed : nat;
  failed : nat;
  errors : nat;
  last_run : string;
  rows : list report_row
}.

(** The three predicates of the summary counts. *)
Definition counts_passed (r : result) : bool :=
  match similarityPercentage r with
  | VNum p => geb p (Fin 95)
  | VStr _ => false
  end.

Definition counts_failed (r : result) : bool :=
  match similarityPercentage r with
  | VNum p => ltb p (Fin 95)
  | VStr _ => false
  end.

Definition counts_error (r : result) : bool :=
  is_string "Error" (similarityPercentage r).

(** The comparator given to [results.sort]. *)
Definition compare_results (a b : result) : number :=
  if is_string "Error" (similarityPercentage a) then of_Z (-1)
  else if is_string "Error" (similarityPercentage b) then of_Z 1
  else match similarityPercentage a, similarityPercentage b with
       | VNum x, VNum y => sub x y
       | _, _ => of_Z 0
       end.

(** [statusClass] and [statusText] of a row. *)
Definition status (v : value) : string * string :=
  match v with
  | VNum p =>
      if geb p (Fin 95) then ("status-pass", "Pass")
      else ("status-fail", "Fail")
  | VStr _ => ("status-error", "Error")
  end.

Section Report.
Variable E : externals.
Variable cfg : config.

(** The body of [results.forEach]. *)
Definition render_row (deviceName : string) (fs : gmap string bytes)
    (r : result) : report_row :=
  let sanitizedPath := replace_slash (pagePath r) in
  let stagingBase64 :=
    imageToBase64 E fs
      ("screenshots/" ++ deviceName ++ "/staging/" ++ sanitizedPath ++ ".png") in
  let prodBase64 :=
    imageToBase64 E fs
      ("screenshots/" ++ deviceName ++ "/prod/" ++ sanitizedPath ++ ".png") in
  let diffBase64 :=
    imageToBase64 E fs
      ("screenshots/" ++ deviceName ++ "/diff/" ++ sanitizedPath ++ ".png") in
  {| staging_href := baseUrl (staging cfg) ++ pagePath r;
     prod_href := baseUrl (prod cfg) ++ pagePath r;
     similarity_cell :=
       match similarityPercentage r with
       | VNum p => toFixed2 p ++ "%"
       | VStr _ => "Error"
       end;
     status_class := fst (status (similarityPercentage r));
     status_text := snd (status (similarityPercentage r));
     staging_image := stagingBase64;
     prod_image := prodBase64;
     diff_image := diffBase64 |}.

(** [generateHtmlReport(results, deviceName)]: the path of the report and
    the document written there. *)
Definition generateHtmlReport (results : list result) (deviceName : string)
    : M (string * report_document) :=
  λ w,
    let reportPath := "visual_comparison_report_" ++ deviceName ++ ".html" in
    let sorted := array_sort compare_results results in
    (Ok (reportPath,
         {| device := deviceName;
            staging_base := baseUrl (staging cfg);
            prod_base := baseUrl (prod cfg);
            total_pages := length results;
            passed := length (List.filter counts_passed results);
            failed := length (List.filter counts_failed results);
            errors := length (List.filter counts_error results);
            last_run := now E;
            rows := render_row deviceName (files w) <$> sorted |}),
     w).

(** ** The comparison test *)

(** One turn of the loop over [config.staging.urls]. *)
Definition process_page (baseDir pagePath : string) : M result :=
  let stagingUrl := baseUrl (staging cfg) ++ pagePath in
  let prodUrl := baseUrl (prod cfg) ++ pagePath in
  let stagingScreenshotPath :=
    path_join3 baseDir "staging" (replace_slash pagePath ++ ".png") in
  let prodScreenshotPath :=
    path_join3 baseDir "prod" (replace_slash pagePath ++ ".png") in
  let diffScreenshotPath :=
    path_join3 baseDir "diff" (replace_slash pagePath ++ ".png") in
  try_catch
    (captureScreenshot E stagingUrl stagingScreenshotPath;;
     captureScreenshot E prodUrl prodScreenshotPath;;
     similarity ←
       compareScreenshots E stagingScreenshotPath prodScreenshotPath
         diffScreenshotPath;
     mret (mkResult pagePath similarity None))
    (λ message, mret (mkResult pagePath (VStr "Error") (Some message))).

(** The loop, with [results] as accumulated so far. *)
Fixpoint for_each_page (baseDir : string) (paths : list string)
    (results : list result) : M (list result) :=
  match paths with
  | [] => mret results
  | pagePath :: paths' =>
      r ← process_page baseDir pagePath;
      for_each_page baseDir paths' (results ++ [r])
  end.

(** The test "Compare staging and prod screenshots and generate HTML
    report": the results as pushed by the loop, and the report. *)
Definition compare_test : M (list result * (string * report_document)) :=
  let deviceName := "Desktop" in
  log "Running tests...";;
  let baseDir := "screenshots/" ++ deviceName in
  results ← for_each_page baseDir (urls (staging cfg)) [];
  report ← generateHtmlReport results deviceName;
  mret (results, report).
End Report.

(** ** Stand-ins for the libraries

    Small implementations of [externals], to run the script on concrete
    inputs.  A file is two bytes of width and height followed by the pixel
    buffer. *)

Module Standin.

Definition byte_of_N (n : N) : Byte.byte :=
  match Byte.of_N n with Some b => b | None => Byte.x00 end.

Definition read (file : bytes) : outcome raster :=
  match file with
  | w :: h :: pixels => Ok (mkRaster (Byte.to_N w) (Byte.to_N h) pixels)
  | _ => Throw "Invalid file signature"
  end.

Definition write (r : raster) : bytes :=
  byte_of_N (width r) :: byte_of_N (height r) :: data r.

(** The pixel at an index differs when its four bytes differ. *)
Definition differs (img1 img2 : raster) (i : nat) : bool :=
  negb (bool_decide (take 4 (drop (4 * i) (data img1))
                     = take 4 (drop (4 * i) (data img2)))).

(** A resize that keeps the image as it is. *)
Definition keep (buffer : bytes) (w h : N) : outcome bytes :=
  match read buffer with
  | Ok _ => Ok buffer
  | Throw _ => Throw "Input buffer contains unsupported image format"
  end.

Definition externals_with (acquire : string → outcome bytes) : externals :=
  {| acquire := acquire;
     sharp_resize := keep;
     png_read := read;
     png_write := write;
     pixel_differs := differs;
     draw_mask := λ img1 img2, data img1;
     base64 := λ b, pretty (length b);
     extname := λ _, ".png";
     now := "1/1/2025, 12:00:00 AM" |}.

(** Every capture fails. *)
Definition offline : externals :=
  externals_with (λ _, Throw "net::ERR_CONNECTION_REFUSED").

(** Every capture is the same 1x1 image, red on staging and as given on
    production. *)
Definition red : bytes := [Byte.x01; Byte.x01; Byte.xff; Byte.x00; Byte.x00; Byte.xff].
Definition blue : bytes := [Byte.x01; Byte.x01; Byte.x00; Byte.x00; Byte.xff; Byte.xff].

Definition online (production : bytes) : externals :=
  externals_with
    (λ url, if String.prefix "https://staging" url then Ok red else Ok production).

(** A pipeline whose decoder reports the canvas the script asks for. *)
Definition canonical : externals :=
  {| acquire := λ _, Ok red;
     sharp_resize := λ buffer _ _, Ok buffer;
     png_read := λ file, Ok (mkRaster 1280 800 file);
     png_write := data;
     pixel_differs := differs;
     draw_mask := λ img1 img2, data img1;
     base64 := λ b, pretty (length b);
     extname := λ _, ".png";
     now := "1/1/2025, 12:00:00 AM" |}.

Definition one_page : config :=
  {| staging := {| baseUrl := "https://staging.example"; urls := ["/"] |};
     prod := {| baseUrl := "https://www.example"; urls := ["https://www.example/"] |} |}.

Definition empty_world : world := mkWorld ∅ [].

(** Five pages, the third of which cannot be captured on staging. *)
Definition five_pages : config :=
  {| staging := {| baseUrl := "https://staging.example";
                   urls := ["/a"; "/b"; "/c"; "/d"; "/e"] |};
     prod := {| baseUrl := "https://www.example"; urls := [] |} |}.

Definition third_page_down : externals :=
  externals_with
    (λ url, if bool_decide (url = "https://staging.example/c")
            then Throw "page.goto: Timeout 60000ms exceeded."
            else Ok red).

End Standin.

(** ** The normalizer of the specification *)

Module Normalizer.

(** Modelled from the spec: the resize itself is done by sharp, which is not
    part of the repository; [resizeImage] only passes it the target size,
    [fit: "contain"] and the background.  Section 4.1 of the specification
    gives the contract modelled here, on decoded images: the source is scaled
    to fit inside the target, keeping its aspect ratio; the rest of the
    canvas is filled with the background RGBA (255, 255, 255, 0), the content
    centred; an input that is no valid raster is refused.  The resampling
    filter is not specified and stays a parameter. *)

Definition pixel : Type := Byte.byte * Byte.byte * Byte.byte * Byte.byte.

Record image : Type := mkImage {
  img_width : Z;
  img_height : Z;
  img_pixel : Z → Z → pixel      (* meaningful inside the canvas *)
}.

Definition background : pixel := (Byte.xff, Byte.xff, Byte.xff, Byte.x00).

(** The quotient [a / b] rounded to the nearest integer. *)
Definition round_div (a b : Z) : Z := ((2 * a + b) / (2 * b))%Z.

(** The size of the scaled content: the scale is the smaller of
    [tw / w] and [th / h]. *)
Definition fitted (w h tw th : Z) : Z * Z :=
  if (h * tw <=? w * th)%Z
  then (tw, round_div (h * tw) w)
  else (round_div (w * th) h, th).

Definition same_content (a b : image) : Prop :=
  img_width a = img_width b ∧ img_height a = img_height b ∧
  ∀ x y, (0 ≤ x < img_width a)%Z → (0 ≤ y < img_height a)%Z →
         img_pixel a x y = img_pixel b x y.

(** Resampling by the nearest source pixel, an instance of the filter. *)
Definition nearest (src : image) (w h : Z) : image :=
  {| img_width := w;
     img_height := h;
     img_pixel := λ x y,
       img_pixel src (x * img_width src / w)%Z (y * img_height src / h)%Z |}.

Section Normalize.
(** [resample src w h]: the content of [src] at size [w] x [h]. *)
Variable resample : image → Z → Z → image.

Definition normalize (src : image) (tw th : Z) : option image :=
  if ((0 <? img_width src) && (0 <? img_height src)
      && (0 <? tw) && (0 <? th))%Z
  then
    let '(fw, fh) := fitted (img_width src) (img_height src) tw th in
    let scaled := resample src fw fh in
    let ox := ((tw - fw) / 2)%Z in
    let oy := ((th - fh) / 2)%Z in
    Some {| img_width := tw;
            img_height := th;
            img_pixel := λ x y,
              if ((ox <=? x) && (x <? ox + fw)
                  && (oy <=? y) && (y <? oy + fh))%Z
              then img_pixel scaled (x - ox)%Z (y - oy)%Z
              else background |}
  else None.
End Normalize.

End Normalizer.

(** ** A reference order for the rows

    The order the rows of a report are expected in when every result is
    "Error" or a finite percentage: the Error rows, the later ones first,
    then the scored rows by ascending percentage, rows of equal percentage
    in their original order. *)

Definition percentage (r : result) : Q :=
  match similarityPercentage r with
  | VNum (Fin q) => q
  | _ => 0
  end.

Definition scored_or_error (r : result) : Prop :=
  match similarityPercentage r with
  | VStr s => s = "Error"
  | VNum (Fin _) => True
  | VNum _ => False
  end.

(** [x] goes behind every row whose percentage is not larger. *)
Fixpoint insert_stable (x : result) (l : list result) : list result :=
  match l with
  | [] => [x]
  | y :: l' =>
      if Qle_bool (percentage y) (percentage x)
      then y :: insert_stable x l'
      else x :: l
  end.

Definition sort_stable (l : list result) : list result :=
  foldl (λ sorted x, insert_stable x sorted) [] l.

Definition le_row (a b : result) : Prop := (percentage a <= percentage b)%Q.
Definition gt_row (a b : result) : Prop := (percentage b < percentage a)%Q.

Definition expected_order (l : list result) : list result :=
  rev (List.filter counts_error l)
  ++ sort_stable (List.filter (λ r, negb (counts_error r)) l).

(** ** Notions used in the statements *)

(** A buffer of four bytes per pixel, as [PNG.sync.read] returns it. *)
Definition well_formed (r : raster) : Prop :=
  N.of_nat (length (data r)) = (width r * height r * 4)%N.

(** The resize to 1280 x 800 gives a file that decodes at that size. *)
Definition canonical_canvas (E : externals) : Prop :=
  ∀ buffer resized r,
    sharp_resize E buffer 1280 800 = Ok resized →
    png_read E resized = Ok r →
    width r = 1280%N ∧ height r = 800%N.

(** The decoder returns well-formed rasters with at least one pixel. *)
Definition decodes_rasters (E : externals) : Prop :=
  ∀ file r, png_read E file = Ok r →
            well_formed r ∧ (0 < width r * height r)%N.


(** The world once both captures of a page have been attempted. *)
Definition after_acquisition (E : externals) (cfg : config)
    (baseDir pagePath : string) (w : world) : world :=
  snd ((captureScreenshot E (baseUrl (staging cfg) ++ pagePath)
          (path_join3 baseDir "staging" (replace_slash pagePath ++ ".png"));;
        captureScreenshot E (baseUrl (prod cfg) ++ pagePath)
          (path_join3 baseDir "prod" (replace_slash pagePath ++ ".png"))) w).

(** The rows of the example of the specification,
    [Pass(98), Error, Fail(40), Pass(99), Error], on pages [/a] to [/e]. *)
Definition mixed_outcomes : list result :=
  [ mkResult "/a" (VNum (Fin 98)) None;
    mkResult "/b" (VStr "Error") None;
    mkResult "/c" (VNum (Fin 40)) None;
    mkResult "/d" (VNum (Fin 99)) None;
    mkResult "/e" (VStr "Error") None ].

(** A result the summary counts once, in the class its row shows. *)
Definition counted_once (r : result) : Prop :=
  let text := snd (status (similarityPercentage r)) in
  (text = "Pass" ∧ counts_passed r = true ∧ counts_failed r = false
   ∧ counts_error r = false)
  ∨ (text = "Fail" ∧ counts_passed r = false ∧ counts_failed r = true
     ∧ counts_error r = false)
  ∨ (text = "Error" ∧ counts_passed r = false ∧ counts_failed r = false
     ∧ counts_error r = true).

(** ** Files a computation may write *)

(** [m] leaves every file outside [paths] as it found it, whether it returns
    or throws. *)
Definition writes_only {A} (paths : list string) (m : M A) : Prop :=
  ∀ w other, other ∉ paths → files (snd (m w)) !! other = files w !! other.

(** The three artifact files of a page. *)
Definition artifact_paths (baseDir pagePath : string) : list string :=
  [ path_join3 baseDir "staging" (replace_slash pagePath ++ ".png");
    path_join3 baseDir "prod" (replace_slash pagePath ++ ".png");
    path_join3 baseDir "diff" (replace_slash pagePath ++ ".png") ].

(** ** A decoder that checks its input *)

Module Fixture.

(** Like [Standin.read], but refusing a file whose pixel buffer does not fit
    its header or that has no pixel. *)
Definition read_checked (file : bytes) : outcome raster :=
  match file with
  | w :: h :: pixels =>
      let r := mkRaster (Byte.to_N w) (Byte.to_N h) pixels in
      if (N.of_nat (length pixels) =? width r * height r * 4)%N
         && (0 <? width r * height r)%N
      then Ok r
      else Throw "Invalid file size"
  | _ => Throw "Invalid file signature"
  end.

Definition checked (acquire : string → outcome bytes) : externals :=
  {| acquire := acquire;
     sharp_resize := Standin.keep;
     png_read := read_checked;
     png_write := Standin.write;
     pixel_differs := Standin.differs;
     draw_mask := λ img1 img2, data img1;
     base64 := λ b, pretty (length b);
     extname := λ _, ".png";
     now := "1/1/2025, 12:00:00 AM" |}.

(** Staging is red, production is as given. *)
Definition site (production : bytes) : externals :=
  checked
    (λ url, if String.prefix "https://staging" url then Ok Standin.red
            else Ok production).

(** Nothing can be captured. *)
Definition down : externals :=
  checked (λ _, Throw "net::ERR_CONNECTION_REFUSED").

(** A capture that is no image. *)
Definition garbled : externals := checked (λ _, Ok [Byte.x00]).

(** Both captures of the page ["/"] on disk, from an earlier run. *)
Definition earlier_run : world :=
  mkWorld {[ "screenshots/Desktop/staging/_.png" := Standin.red;
             "screenshots/Desktop/prod/_.png" := Standin.red ]} [].






(** A pipeline on the canvas of the script: the resize fills the canvas it
    is asked for with the first byte of its input, and the decoder accepts
    the files that have the size of a canvas of 1280 x 800. *)
Definition fill (buffer : bytes) (w h : N) : outcome bytes :=
  match buffer with
  | b :: _ => Ok (replicate (N.to_nat (w * h * 4)) b)
  | [] => Throw "Input Buffer is empty"
  end.

Definition read_canvas (file : bytes) : outcome raster :=
  if (N.of_nat (length file) =? 1280 * 800 * 4)%N
  then Ok (mkRaster 1280 800 file)
  else Throw "Invalid file signature".

Definition canvas (acquire : string → outcome bytes) : externals :=
  {| acquire := acquire;
     sharp_resize := fill;
     png_read := read_canvas;
     png_write := data;
     pixel_differs := Standin.differs;
     draw_mask := λ img1 img2, data img1;
     base64 := λ b, pretty (length b);
     extname := λ _, ".png";
     now := "1/1/2025, 12:00:00 AM" |}.

(** Every page is captured on both sides, but for ["/c"] on staging. *)
Definition canvas_site : externals :=
  canvas
    (λ url, if bool_decide (url = "https://staging.example/c")
            then Throw "page.goto: Timeout 60000ms exceeded."
            else if String.prefix "https://staging" url then Ok [Byte.xff]
            else Ok [Byte.x00]).

End Fixture.

(** ** The browser tests

    The other tests of the file drive a page and write to the console.  The
    page, and the site behind it, are a state of some type [S] that every
    call may change; what a call returns, or throws, is up to the [driver].
    A line of the console is the text given to [console.log] or
    [console.error], without the colour [chalk] wraps it in; a call that
    never settles, and the time limit of the test runner, are not
    represented. *)

Module Browser.

(** Calls on the page that return nothing. *)
Inductive command : Type :=
  | Goto (url waitUntil : string)
      (* page.goto(url, { waitUntil }) *)
  | Click (selector : string)
      (* page.click(selector) *)
  | ClickAndWaitForNavigation (selector waitUntil : string)
      (* Promise.all([page.waitForNavigation({ waitUntil }), page.click(selector)]) *)
  | WaitForSelector (selector : string) (state : option string) (timeout : N)
      (* page.waitForSelector(selector, { state, timeout }) *)
  | SelectOption (selector value : string)
  | Fill (selector value : string)
  | Check (selector : string)
  | WaitForLoadState (state : string)
  | WaitForURL (url : string) (timeout : N)
  | WaitForTimeout (timeout : N)
  | FirstWaitFor (selector state : string) (timeout : N)
      (* page.locator(selector).first().waitFor({ state, timeout }) *)
  | FirstScrollIntoViewIfNeeded (selector : string)
  | FirstHover (selector : string)
  | FirstClickForce (selector : string).
      (* page.locator(selector).first().click({ force: true }) *)

Record driver (S : Type) : Type := mkDriver {
  run : command → S → outcome unit * S;
  (** [page.locator(selector).count()] *)
  count : string → S → outcome nat * S;
  (** [page.locator(selector).nth(i).getAttribute(name)] *)
  get_attribute : string → nat → string → S → outcome (option string) * S;
  (** [page.locator(selector).nth(i).textContent()] *)
  nth_text_content : string → nat → S → outcome (option string) * S;
  (** [page.textContent(selector)] *)
  text_content : string → S → outcome (option string) * S;
  (** [page.locator(selector).first().isVisible()] *)
  first_is_visible : string → S → outcome bool * S;
  (** [new URL(relative, base).toString()] *)
  resolve : string → string → outcome string;
  (** [String.prototype.trim] *)
  trim : string → string;
  (** The message of the error [expect(actual).toBe(expected)] throws. *)
  expectation_failure : string → string → string
}.
Arguments run {S}.
Arguments count {S}.
Arguments get_attribute {S}.
Arguments nth_text_content {S}.
Arguments text_content {S}.
Arguments first_is_visible {S}.
Arguments resolve {S}.
Arguments trim {S}.
Arguments expectation_failure {S}.

(** [axios.get(url)]: the status of the response. *)
Definition http_client (S : Type) : Type := string → S → outcome N * S.

(** The page and the lines written to the console. *)
Record session (S : Type) : Type := mkSession {
  page : S;
  printed : list string
}.
Arguments mkSession {S}.
Arguments page {S}.
Arguments printed {S}.

Definition T (S A : Type) : Type := session S → outcome A * session S.

Global Instance T_ret {S} : MRet (T S) := λ A a s, (Ok a, s).
Global Instance T_bind {S} : MBind (T S) := λ A B k m s,
  match m s with
  | (Ok a, s') => k a s'
  | (Throw message, s') => (Throw message, s')
  end.

(** [console.log], [console.error] *)
Definition say {S} (line : string) : T S unit :=
  λ s, (Ok tt, mkSession (page s) (printed s ++ [line])).

(** A call on the page. *)
Definition call {S A} (f : S → outcome A * S) : T S A :=
  λ s, let '(o, st) := f (page s) in (o, mkSession st (printed s)).

(** [throw new Error(message)], and a call that does not touch the page. *)
Definition fail {S A} (message : string) : T S A := λ s, (Throw message, s).
Definition pure_call {S A} (o : outcome A) : T S A := λ s, (o, s).

(** [try { body } catch (error) { handler(error.message) }] *)
Definition attempt {S A} (body : T S A) (handler : string → T S A) : T S A :=
  λ s, match body s with
       | (Ok a, s') => (Ok a, s')
       | (Throw message, s') => handler message s'
       end.

(** [s.includes(needle)] *)
Fixpoint includes (needle s : string) : bool :=
  String.prefix needle s
  || match s with
     | EmptyString => false
     | String _ s' => includes needle s'
     end.

(** A value of [textContent] inside a template string. *)
Definition shown (text : option string) : string :=
  match text with Some t => t | None => "null" end.

(** The double quote, for the lines that quote a text. *)
Definition quote : string := String (Ascii.ascii_of_nat 34) EmptyString.

Section Tests.
Context {S : Type} (D : driver S).

(** *** "Verify broken image links automatically on staging pages" *)

(** The body of the loop over the images of a page: the new value of
    [brokenImages].  [axios] is what the identifier [axios] is bound to. *)
Definition check_image (axios : option (http_client S)) (url : string)
    (i brokenImages : nat) : T S nat :=
  src ← call (get_attribute D "img" i "src");
  match src with
  | None | Some EmptyString =>
      say ("Image " ++ pretty (i + 1)%nat
           ++ " does not have a valid src attribute.");;
      mret (brokenImages + 1)%nat
  | Some imageUrl =>
      imageUrl ←
        (if negb (String.prefix "http" imageUrl)
            && negb (String.prefix "//" imageUrl)
         then pure_call (resolve D imageUrl url)
         else if String.prefix "//" imageUrl
         then mret ("https:" ++ imageUrl)
         else mret imageUrl);
      if includes "bat.bing.com" imageUrl || includes "tracking" imageUrl
      then
        say ("Image " ++ pretty (i + 1)%nat
             ++ " is a tracking pixel or excluded URL: " ++ imageUrl);;
        mret brokenImages
      else
        attempt
          (say ("Checking image " ++ pretty (i + 1)%nat ++ ": " ++ imageUrl);;
           status ←
             match axios with
             | Some get => call (get imageUrl)
             | None => fail "axios is not defined"
             end;
           if negb (status =? 200)%N then
             say ("Image " ++ pretty (i + 1)%nat
                  ++ " failed to load. Status Code: " ++ pretty status);;
             mret (brokenImages + 1)%nat
           else
             say ("Image " ++ pretty (i + 1)%nat ++ " loaded successfully.");;
             mret brokenImages)
          (λ message,
             say ("Image " ++ pretty (i + 1)%nat
                  ++ " failed to load. Error: " ++ message);;
             mret (brokenImages + 1)%nat)
  end.

(** [for (let i = ...; i < imageCount; i++)], with [remaining] turns to go. *)
Fixpoint image_loop (axios : option (http_client S)) (url : string)
    (remaining i brokenImages : nat) : T S nat :=
  match remaining with
  | O => mret brokenImages
  | Datatypes.S remaining' =>
      brokenImages' ← check_image axios url i brokenImages;
      image_loop axios url remaining' (i + 1)%nat brokenImages'
  end.

(** The body of the loop over the pages. *)
Definition check_page (axios : option (http_client S)) (url : string)
    : T S unit :=
  say ("Navigating to: " ++ url);;
  call (run D (Goto url "domcontentloaded"));;
  say ("Page loaded successfully: " ++ url);;
  say "Finding all image elements on the page...";;
  imageCount ← call (count D "img");
  say ("Found " ++ pretty imageCount ++ " images on the page.");;
  brokenImages ← image_loop axios url imageCount 0 0;
  if (0 <? brokenImages)%nat then
    say ("Test failed for " ++ url ++ ". Found " ++ pretty brokenImages
         ++ " broken images on the page.")
  else
    say ("Test passed for " ++ url
         ++ ". No broken images found on the page.").

Fixpoint check_pages (axios : option (http_client S)) (urls : list string)
    : T S unit :=
  match urls with
  | [] => mret tt
  | url :: urls' => check_page axios url;; check_pages axios urls'
  end.

(** The test.  The file never declares [axios]: the identifier is unbound
    where [axios.get] is called. *)
Definition broken_images_test (cfg : config) : T S unit :=
  let stagingUrls := (λ url, baseUrl (staging cfg) ++ url) <$> urls (staging cfg) in
  check_pages None stagingUrls.

(** *** "Verify Online Programs and Getting Started Menus - Sheridan" *)

(** The body of the loop over the links of a menu: the new value of
    [invalidLinks]. *)
Definition check_link (menuName linksSelector : string) (i invalidLinks : nat)
    : T S nat :=
  linkText ← call (nth_text_content D linksSelector i);
  linkHref ← call (get_attribute D linksSelector i "href");
  say ("Checking link " ++ pretty (i + 1)%nat ++ " in '" ++ menuName
       ++ "' menu: " ++ shown linkText);;
  match linkHref with
  | Some href =>
      if bool_decide (href = "") || bool_decide (trim D href = "") then
        say ("Warning: Link '" ++ shown linkText ++ "' in '" ++ menuName
             ++ "' menu has no valid href.");;
        mret (invalidLinks + 1)%nat
      else
        say ("Valid link: '" ++ shown linkText ++ "' -> " ++ href);;
        mret invalidLinks
  | None =>
      say ("Warning: Link '" ++ shown linkText ++ "' in '" ++ menuName
           ++ "' menu has no valid href.");;
      mret (invalidLinks + 1)%nat
  end.

Fixpoint link_loop (menuName linksSelector : string)
    (remaining i invalidLinks : nat) : T S nat :=
  match remaining with
  | O => mret invalidLinks
  | Datatypes.S remaining' =>
      invalidLinks' ← check_link menuName linksSelector i invalidLinks;
      link_loop menuName linksSelector remaining' (i + 1)%nat invalidLinks'
  end.

(** [verifyMenu(menuName, menuSelector, submenuSelector, linksSelector)] *)
Definition verifyMenu (menuName menuSelector submenuSelector linksSelector : string)
    : T S unit :=
  say ("Locating the '" ++ menuName ++ "' menu...");;
  call (run D (FirstWaitFor menuSelector "attached" 10000));;
  say ("Ensuring '" ++ menuName ++ "' menu is visible...");;
  call (run D (FirstScrollIntoViewIfNeeded menuSelector));;
  say ("Hovering over the '" ++ menuName ++ "' menu...");;
  call (run D (FirstHover menuSelector));;
  call (run D (WaitForTimeout 500));;
  isMenuVisible ← call (first_is_visible D submenuSelector);
  (if negb isMenuVisible then
     say ("Hover did not reveal the '" ++ menuName
          ++ "' submenu, attempting a click...");;
     call (run D (FirstClickForce menuSelector))
   else mret tt);;
  call (run D (WaitForSelector submenuSelector (Some "visible") 10000));;
  submenuCount ← call (count D submenuSelector);
  (if (submenuCount =? 0)%nat
   then fail ("No submenus found for '" ++ menuName ++ "' menu.")
   else mret tt);;
  say ("Found " ++ pretty submenuCount ++ " submenus in the '" ++ menuName
       ++ "' menu.");;
  linkCount ← call (count D linksSelector);
  (if (linkCount =? 0)%nat
   then fail ("No links found in the '" ++ menuName ++ "' menu.")
   else mret tt);;
  say ("Found " ++ pretty linkCount ++ " links in the '" ++ menuName
       ++ "' menu.");;
  invalidLinks ← link_loop menuName linksSelector linkCount 0 0;
  say ("Completed checks for '" ++ menuName ++ "'. Invalid links: "
       ++ pretty invalidLinks);;
  if (0 <? invalidLinks)%nat then
    say ("Test finished with " ++ pretty invalidLinks ++ " warnings for '"
         ++ menuName ++ "'.")
  else
    say ("All links in '" ++ menuName ++ "' are valid.").

Definition menus_test : T S unit :=
  let homePageUrl := "https://live-web-sheridan.pantheonsite.io/" in
  say ("Navigating to the YSU homepage: " ++ homePageUrl);;
  call (run D (Goto homePageUrl "domcontentloaded"));;
  say "Homepage loaded successfully.";;
  verifyMenu "Online Programs"
    "#mega-menu-item-148 > a.mega-menu-link"
    "#mega-menu-item-148 ul.mega-sub-menu"
    "#mega-menu-item-148 ul.mega-sub-menu a.mega-menu-link";;
  verifyMenu "Getting Started"
    "#mega-menu-item-153 > a.mega-menu-link"
    "#mega-menu-item-153 ul.mega-sub-menu"
    "#mega-menu-item-153 ul.mega-sub-menu a.mega-menu-link".

(** *** The form tests *)

(** [expect(actual).toBe(expected)] on strings *)
Definition expect_toBe (actual expected : string) : T S unit :=
  if bool_decide (actual = expected) then mret tt
  else fail (expectation_failure D actual expected).

(** Reading the confirmation, printing it trimmed and comparing it; [trim]
    of [null] throws. *)
Definition check_confirmation (selector label expected matches : string)
    : T S unit :=
  confirmationText ← call (text_content D selector);
  match confirmationText with
  | None => fail "Cannot read properties of null (reading 'trim')"
  | Some text =>
      say (label ++ quote ++ trim D text ++ quote);;
      expect_toBe (trim D text) expected;;
      say matches
  end.

(** "Fill out Request Info forms from Header and Inline sequentially and
    verify confirmation (Staging Only)", the body of its [try]. *)
Definition request_info_body : T S unit :=
  let formPageUrl := "https://live-web-sheridan.pantheonsite.io/" in
  say ("Navigating to the staging homepage: " ++ formPageUrl);;
  call (run D (Goto formPageUrl "domcontentloaded"));;
  say "Homepage loaded successfully on staging.";;
  say "Clicking 'Request Info' button in the header...";;
  call (run D (Click "li.request-info-btn a"));;
  say "'Request Info' button clicked.";;
  call (run D (WaitForSelector "#gform_2" (Some "visible") 10000));;
  say "Request Info form (Header) is now visible.";;
  say "Filling out the first form...";;
  call (run D (SelectOption "#input_2_9" "US"));;
  call (run D (SelectOption "#input_2_1" "SHERIDAN.CA-B-BINFOSCICBRSEC"));;
  call (run D (Fill "#input_2_2" "John"));;
  call (run D (Fill "#input_2_3" "Doe"));;
  call (run D (Fill "#input_2_6" "test@ap.com"));;
  call (run D (Fill "#input_2_4" "5551234567"));;
  call (run D (Fill "#input_2_5" "12345"));;
  call (run D (SelectOption "#input_2_7" "Online"));;
  say "First form filled successfully.";;
  say "Clicking on the 'Agree to terms' checkbox...";;
  call (run D (Check "#choice_2_10_1"));;
  say "Checkbox clicked.";;
  say "Submitting the first form...";;
  call (run D (ClickAndWaitForNavigation "#gform_submit_button_2" "domcontentloaded"));;
  say "First form submitted successfully on staging.";;
  call (run D (WaitForSelector "h1.headline1" None 20000));;
  check_confirmation "h1.headline1" "First form confirmation message: "
    "Great! Now take the next step."
    "First form confirmation message matches expected value.";;
  say "Navigating back to the homepage...";;
  call (run D (Goto formPageUrl "domcontentloaded"));;
  say "Back on the homepage.";;
  say "Clicking the second 'Request Info' button...";;
  call (run D (Click ".elementor-element-3d3ef31f .form-title"));;
  say "Second 'Request Info' button clicked.";;
  call (run D (WaitForSelector "#gform_2" (Some "visible") 10000));;
  say "Second 'Request Info' form is now visible.";;
  say "Filling out the second form...";;
  call (run D (SelectOption "#input_2_9" "US"));;
  call (run D (SelectOption "#input_2_1" "SHERIDAN.CA-B-BCPTRSCI"));;
  call (run D (Fill "#input_2_2" "Jane"));;
  call (run D (Fill "#input_2_3" "Smith"));;
  call (run D (Fill "#input_2_6" "test@ap.com"));;
  call (run D (Fill "#input_2_4" "5559876543"));;
  call (run D (Fill "#input_2_5" "67890"));;
  call (run D (SelectOption "#input_2_7" "Online"));;
  say "Second form filled successfully.";;
  say "Clicking on the 'Agree to terms' checkbox...";;
  call (run D (Check "#choice_2_10_1"));;
  say "Checkbox clicked.";;
  say "Submitting the second form...";;
  call (run D (ClickAndWaitForNavigation "#gform_submit_button_2" "domcontentloaded"));;
  say "Second form submitted successfully on staging.";;
  call (run D (WaitForSelector "h1.headline1" None 20000));;
  check_confirmation "h1.headline1" "Second form confirmation message: "
    "Great! Now take the next step."
    "Second form confirmation message matches expected value.".

Definition request_info_test : T S unit :=
  attempt request_info_body (λ message, say ("Error during test: " ++ message)).

(** "Click 'Apply Now' (Header, Body x2 & Footer), fill out the form, and
    verify submission (Staging Only)" *)
Definition fillAndSubmitForm : T S unit :=
  say "Filling out the Apply Now form...";;
  call (run D (SelectOption "#input_1_13" "US"));;
  call (run D (SelectOption "#input_1_1" "SHERIDAN.CA-B-BINFOSCICBRSEC"));;
  call (run D (Fill "#input_1_2" "John"));;
  call (run D (Fill "#input_1_3" "Doe"));;
  call (run D (Fill "#input_1_4" "test@ap.com"));;
  call (run D (Fill "#input_1_5" "5551234567"));;
  call (run D (Fill "#input_1_6" "12345"));;
  call (run D (SelectOption "#input_1_7" "Email"));;
  say "Form fields filled successfully.";;
  say "Clicking on the 'Agree to terms' checkbox...";;
  call (run D (Check "#choice_1_15_1"));;
  say "Checkbox clicked.";;
  say "Submitting the Apply Now form...";;
  call (run D (Click "#gform_submit_button_1"));;
  say "Waiting for confirmation message...";;
  call (run D (WaitForLoadState "networkidle"));;
  call (run D (WaitForSelector "h1.headline2" None 30000));;
  check_confirmation "h1.headline2" "Confirmation message found: "
    "Great! Now, take the next step."
    "Confirmation message matches expected value.".

Definition clickApplyNowButton (buttonSelector buttonLocation : string)
    : T S unit :=
  let applyPageUrl := "https://live-web-sheridan.pantheonsite.io/apply/" in
  say ("Clicking on the 'Apply Now' button in the " ++ buttonLocation ++ "...");;
  call (run D (Click buttonSelector));;
  say ("Waiting for navigation to: " ++ applyPageUrl);;
  call (run D (WaitForURL applyPageUrl 15000));;
  say ("Navigated to the Apply Now form page from the " ++ buttonLocation ++ ".");;
  say "Waiting for the Apply Now form to be visible...";;
  call (run D (WaitForSelector "#gform_1" (Some "visible") 10000));;
  say "Apply Now form is visible.".

Definition apply_now_body : T S unit :=
  let homePageUrl := "https://live-web-sheridan.pantheonsite.io/" in
  say ("Navigating to the home page: " ++ homePageUrl);;
  call (run D (Goto homePageUrl "domcontentloaded"));;
  say "Homepage loaded successfully.";;
  clickApplyNowButton "li.apply-now-btn a.elementor-item" "header";;
  fillAndSubmitForm;;
  say "Returning to the homepage for the next Apply Now test...";;
  call (run D (Goto homePageUrl "domcontentloaded"));;
  say "Homepage reloaded successfully.";;
  clickApplyNowButton "a.button.primary.apply-now.button-border" "body (first)";;
  fillAndSubmitForm;;
  say "Returning to the homepage for the additional Apply Now test...";;
  call (run D (Goto homePageUrl "domcontentloaded"));;
  say "Homepage reloaded successfully.";;
  clickApplyNowButton "a.button.primary.programpage-hide" "body (second)";;
  fillAndSubmitForm;;
  say "Returning to the homepage for the footer Apply Now test...";;
  call (run D (Goto homePageUrl "domcontentloaded"));;
  say "Homepage reloaded successfully.";;
  clickApplyNowButton "a.button[aria-label='apply now from sticky footer']"
    "footer";;
  fillAndSubmitForm.

Definition apply_now_test : T S unit :=
  attempt apply_now_body (λ message, say ("Test failed: " ++ message)).
End Tests.

(** Run from [s], [m] ends with [o] and has printed [lines]. *)
Definition outputs {S A} (m : T S A) (s : session S) (o : outcome A)
    (lines : list string) : Prop :=
  fst (m s) = o ∧ printed (snd (m s)) = (printed s ++ lines)%list.

(** A driver every call of which returns: no timeout, no navigation error,
    no URL that cannot be resolved. *)
Record responsive {S} (D : driver S) : Prop := mkResponsive {
  run_returns : ∀ c st, ∃ st', run D c st = (Ok tt, st');
  count_returns : ∀ selector st, ∃ n st', count D selector st = (Ok n, st');
  get_attribute_returns : ∀ selector i name st,
    ∃ v st', get_attribute D selector i name st = (Ok v, st');
  nth_text_content_returns : ∀ selector i st,
    ∃ v st', nth_text_content D selector i st = (Ok v, st');
  text_content_returns : ∀ selector st,
    ∃ v st', text_content D selector st = (Ok v, st');
  first_is_visible_returns : ∀ selector st,
    ∃ v st', first_is_visible D selector st = (Ok v, st');
  resolve_returns : ∀ relative base, ∃ u, resolve D relative base = Ok u
}.

(** A site that never changes, for running the tests: every page shows the
    images [images] (by their [src]) and the links [links] (text and
    [href]); every element with a text reads [heading]; the state is the
    number of calls made so far. *)
Definition static_site (images : list (option string))
    (links : list (option string * option string)) (heading : string)
    : driver nat :=
  {| run := λ _ st, (Ok tt, Datatypes.S st);
     count := λ selector st,
       (Ok (if bool_decide (selector = "img") then length images
            else length links), Datatypes.S st);
     get_attribute := λ selector i name st,
       (Ok (if bool_decide (selector = "img") then mjoin (images !! i)
            else mjoin (snd <$> links !! i)), Datatypes.S st);
     nth_text_content := λ selector i st,
       (Ok (mjoin (fst <$> links !! i)), Datatypes.S st);
     text_content := λ selector st, (Ok (Some heading), Datatypes.S st);
     first_is_visible := λ selector st, (Ok true, Datatypes.S st);
     resolve := λ relative base, Ok (base ++ relative);
     trim := λ text, text;
     expectation_failure := λ actual expected,
       "expected " ++ expected ++ ", received " ++ actual |}.

(** A site that cannot be reached. *)
Definition unreachable_site : driver nat :=
  {| run := λ c st,
       (match c with
        | Goto _ _ => Throw "net::ERR_NAME_NOT_RESOLVED"
        | _ => Ok tt
        end, Datatypes.S st);
     count := λ _ st, (Ok 0%nat, Datatypes.S st);
     get_attribute := λ _ _ _ st, (Ok None, Datatypes.S st);
     nth_text_content := λ _ _ st, (Ok None, Datatypes.S st);
     text_content := λ _ st, (Ok None, Datatypes.S st);
     first_is_visible := λ _ st, (Ok false, Datatypes.S st);
     resolve := λ relative base, Ok (base ++ relative);
     trim := λ text, text;
     expectation_failure := λ actual expected,
       "expected " ++ expected ++ ", received " ++ actual |}.

(** A page whose menu never shows a submenu: no element is found or
    visible, and waiting for one to be visible times out. *)
Definition menu_without_submenu : driver nat :=
  {| run := λ c st,
       (match c with
        | WaitForSelector _ _ _ =>
            Throw "page.waitForSelector: Timeout 10000ms exceeded."
        | _ => Ok tt
        end, Datatypes.S st);
     count := λ _ st, (Ok 0%nat, Datatypes.S st);
     get_attribute := λ _ _ _ st, (Ok None, Datatypes.S st);
     nth_text_content := λ _ _ st, (Ok None, Datatypes.S st);
     text_content := λ _ st, (Ok None, Datatypes.S st);
     first_is_visible := λ _ st, (Ok false, Datatypes.S st);
     resolve := λ relative base, Ok (base ++ relative);
     trim := λ text, text;
     expectation_failure := λ actual expected,
       "expected " ++ expected ++ ", received " ++ actual |}.

Definition fresh_session : session nat := mkSession 0%nat [].
End Browser.

(** * Properties *)

Local Open Scope list_scope.

(** ** Artifact names *)

Lemma replace_char_inj (c d : ascii) :
  c ≠ "_"%char → d ≠ "_"%char →
  (if Ascii.eqb c "/" then "_"%char else c)
  = (if Ascii.eqb d "/" then "_"%char else d) →
  c = d.
Proof.
  intros Hc Hd.
  destruct (Ascii.eqb_spec c "/"), (Ascii.eqb_spec d "/"); congruence.
Qed.

(** C9, as the code has it: replacing every "/" by "_" is injective on the
    page paths that contain no underscore; two such paths with the same
    sanitized name are the same path. *)
Theorem sanitized_name_injective_without_underscore (p q : string) :
  "_"%char ∉ chars p → "_"%char ∉ chars q →
  replace_slash p = replace_slash q → p = q.
Proof.
  revert q. induction p as [|c p IH]; intros [|d q]; simpl; try done.
  intros Hp Hq Heq. injection Heq as Hhead Htail.
  apply not_elem_of_cons in Hp as [Hc Hp].
  apply not_elem_of_cons in Hq as [Hd Hq].
  f_equal.
  - apply replace_char_inj; congruence.
  - by apply IH.
Qed.

Lemma sanitized_name_injective_witness : "/degrees/area/" = "/degrees/area/".
Proof.
  apply (sanitized_name_injective_without_underscore
           "/degrees/area/" "/degrees/area/").
  - apply (bool_decide_unpack _). vm_compute. exact I.
  - apply (bool_decide_unpack _). vm_compute. exact I.
  - reflexivity.
Defined.

(** C9 as stated fails: two different page paths share a sanitized name, a
    separator in one standing where the other has an underscore. *)
Lemma sanitized_names_collide :
  "/a/b" ≠ "/a_b" ∧ replace_slash "/a/b" = replace_slash "/a_b".
Proof. split; [discriminate | reflexivity]. Qed.

(** The configured page set has no two pages with the same file name (one of
    its paths contains underscores). *)
Lemma configured_names_distinct :
  NoDup (replace_slash <$> urls (staging sheridan_config)).
Proof. apply (bool_decide_unpack _). vm_compute. exact I. Qed.

(** ** Classification *)

Lemma Qle_bool_false (x y : Q) : Qle_bool x y = false ↔ (y < x)%Q.
Proof.
  split.
  - intros H. apply Qnot_le_lt. intros Hle.
    apply Qle_bool_iff in Hle. congruence.
  - intros H. destruct (Qle_bool x y) eqn:Hb; [|done].
    apply Qle_bool_iff in Hb. exfalso. by apply (Qlt_not_le y x).
Qed.

(** C2: a row with a finite similarity percentage [q] is shown as Pass
    exactly when [95 <= q] and as Fail exactly when [q < 95], and the
    summary counts it as passed and failed by the same tests. *)
Theorem classification_threshold (E : externals) (cfg : config)
    (deviceName path : string) (fs : gmap string bytes) (q : Q)
    (err : option string) :
  let r := mkResult path (VNum (Fin q)) err in
  (status_text (render_row E cfg deviceName fs r) = "Pass" ↔ (95 <= q)%Q)
  ∧ (status_text (render_row E cfg deviceName fs r) = "Fail" ↔ (q < 95)%Q)
  ∧ (counts_passed r = true ↔ (95 <= q)%Q)
  ∧ (counts_failed r = true ↔ (q < 95)%Q).
Proof.
  simpl. unfold counts_passed, counts_failed. simpl.
  destruct (Qle_bool 95 q) eqn:Hb; simpl.
  - apply Qle_bool_iff in Hb.
    assert (¬ (q < 95)%Q) as Hn by (intros H; by apply (Qlt_not_le q 95)).
    repeat split; intros; try done; by exfalso.
  - apply Qle_bool_false in Hb.
    assert (¬ (95 <= q)%Q) as Hn by (intros H; by apply (Qlt_not_le q 95)).
    repeat split; intros; try done; by exfalso.
Qed.

(** The boundary: 95 is a pass, and NaN, which is also [typeof "number"],
    is shown as Fail and counted as neither. *)
Lemma classification_boundary :
  status (VNum (Fin 95)) = ("status-pass", "Pass")
  ∧ status (VNum (Fin (94999 # 1000))) = ("status-fail", "Fail")
  ∧ status (VNum NaN) = ("status-fail", "Fail")
  ∧ counts_failed (mkResult "/" (VNum NaN) None) = false.
Proof. repeat split. Qed.

(** ** Summary counts *)

(** A "Size mismatch" result, which no run produces when the resize gives
    the canvas: its row shows "Error", and none of the three counts of the
    summary includes it. *)
Lemma size_mismatch_row_not_counted (E : externals) (cfg : config)
    (w : world) :
  ∃ reportPath doc,
    generateHtmlReport E cfg [mkResult "/" (VStr "Size mismatch") None]
      "Desktop" w = (Ok (reportPath, doc), w)
    ∧ status_text <$> rows doc = ["Error"]
    ∧ total_pages doc = 1%nat
    ∧ (passed doc + failed doc + errors doc = 0)%nat.
Proof. eexists _, _. split; [reflexivity|]. repeat split. Qed.

(** X1: on results that are "Error" or a number other than NaN, the three
    counts of the summary add up to the number of pages. *)
Lemma counts_add_up (results : list result) :
  Forall (λ r, match similarityPercentage r with
               | VNum p => is_nan p = false
               | VStr s => s = "Error"
               end) results →
  (length (List.filter counts_passed results)
   + length (List.filter counts_failed results)
   + length (List.filter counts_error results) = length results)%nat.
Proof.
  induction 1 as [|r results Hr _ IH]; [done|].
  simpl. unfold counts_passed, counts_failed, counts_error in *.
  destruct (similarityPercentage r) as [p|s]; simpl.
  - assert (geb p (Fin 95) = negb (ltb p (Fin 95))) as ->.
    { destruct p as [q|[]|]; simpl in *; try done.
      by rewrite negb_involutive. }
    destruct (ltb p (Fin 95)); simpl; lia.
  - subst s. simpl. lia.
Qed.

(** ** Sort order *)

(** C1 on the rows of the specification's example: the comparator answers
    "smaller" for two Error rows in either order, and the sort returns the
    outcomes in the order [Error, Error, Fail(40), Pass(98), Pass(99)] with
    the two Error rows exchanged, [/e] before [/b]. *)
Theorem error_rows_exchanged (E : externals) (cfg : config) (w : world) :
  compare_results (mkResult "/b" (VStr "Error") None)
                  (mkResult "/e" (VStr "Error") None) = of_Z (-1)
  ∧ compare_results (mkResult "/e" (VStr "Error") None)
                    (mkResult "/b" (VStr "Error") None) = of_Z (-1)
  ∧ ∃ reportPath doc,
      generateHtmlReport E cfg mixed_outcomes "Desktop" w
      = (Ok (reportPath, doc), w)
      ∧ status_text <$> rows doc = ["Error"; "Error"; "Fail"; "Pass"; "Pass"]
      ∧ similarity_cell <$> rows doc
        = ["Error"; "Error"; "40.00%"; "98.00%"; "99.00%"]
      ∧ staging_href <$> rows doc
        = (λ p, baseUrl (staging cfg) +:+ p) <$> ["/e"; "/b"; "/c"; "/a"; "/d"].
Proof.
  split; [reflexivity|]. split; [reflexivity|].
  eexists _, _. split; [reflexivity|]. repeat split.
Qed.

(** The sort returns the rows it was given, in some order. *)
Section ArraySortFacts.
Context {A : Type} (comparefn : A → A → number).

Lemma extend_run_app (desc : bool) (prev : A) (l run rest : list A) :
  extend_run comparefn desc prev l = (run, rest) → l = run ++ rest.
Proof.
  revert prev run rest. induction l as [|cur l IH]; simpl; intros prev run rest.
  - by intros [= <- <-].
  - destruct (Bool.eqb _ desc).
    + destruct (extend_run comparefn desc cur l) as [run' rest'] eqn:Hrun.
      intros [= <- <-]. simpl. f_equal. by apply IH with cur.
    + by intros [= <- <-].
Qed.

Lemma count_and_make_run_perm (l run rest : list A) :
  count_and_make_run comparefn l = (run, rest) → run ++ rest ≡ₚ l.
Proof.
  destruct l as [|a0 [|a1 l]]; simpl.
  - by intros [= <- <-].
  - by intros [= <- <-].
  - destruct (extend_run comparefn _ a1 l) as [run' rest'] eqn:Hrun.
    apply extend_run_app in Hrun as ->.
    intros [= <- <-]. destruct (order_lt0 comparefn a1 a0).
    + by rewrite <- (Permutation_rev (a0 :: a1 :: run')).
    + done.
Qed.

Lemma insert_pivot_perm (sorted : list A) (pivot : A) :
  insert_pivot comparefn sorted pivot ≡ₚ pivot :: sorted.
Proof.
  unfold insert_pivot.
  rewrite <- Permutation_middle. by rewrite take_drop.
Qed.

Lemma binary_insertion_sort_perm (rest sorted : list A) :
  binary_insertion_sort comparefn sorted rest ≡ₚ sorted ++ rest.
Proof.
  unfold binary_insertion_sort. revert sorted.
  induction rest as [|x rest IH]; intros sorted; simpl.
  - by rewrite app_nil_r.
  - rewrite IH, insert_pivot_perm. by rewrite <- Permutation_middle.
Qed.

Lemma array_sort_perm (l : list A) : array_sort comparefn l ≡ₚ l.
Proof.
  unfold array_sort.
  destruct (count_and_make_run comparefn l) as [run rest] eqn:Hrun.
  rewrite binary_insertion_sort_perm. by apply count_and_make_run_perm.
Qed.
Lemma binary_search_partition (front back : list A) (pivot : A) :
  Forall (λ y, order_lt0 comparefn pivot y = false) front →
  Forall (λ y, order_lt0 comparefn pivot y = true) back →
  ∀ fuel left right,
    (left ≤ length front ≤ right)%nat →
    (right ≤ length (front ++ back))%nat →
    (right - left ≤ fuel)%nat →
    binary_search comparefn fuel (front ++ back) pivot left right
    = length front.
Proof.
  intros Hfront Hback.
  induction fuel as [|fuel IH]; intros left right Hk Hr Hfuel.
  - simpl. lia.
  - cbn [binary_search].
    destruct (Nat.ltb_spec left right) as [Hlt|Hge]; [|lia].
    set (mid := (left + (right - left) / 2)%nat).
    assert (left ≤ mid < right)%nat as Hmid.
    { unfold mid. split; [lia|].
      assert ((right - left) / 2 < right - left)%nat
        by (apply Nat.div_lt; lia).
      lia. }
    destruct ((front ++ back) !! mid) as [y|] eqn:Hy.
    2: { apply lookup_ge_None in Hy. lia. }
    destruct (decide (mid < length front)%nat) as [Hin|Hout].
    + rewrite lookup_app_l in Hy by done.
      rewrite (Forall_lookup_1 _ _ _ _ Hfront Hy).
      apply IH; lia.
    + rewrite lookup_app_r in Hy by lia.
      rewrite (Forall_lookup_1 _ _ _ _ Hback Hy).
      apply IH; lia.
Qed.

Lemma insert_pivot_partition (front back : list A) (pivot : A) :
  Forall (λ y, order_lt0 comparefn pivot y = false) front →
  Forall (λ y, order_lt0 comparefn pivot y = true) back →
  insert_pivot comparefn (front ++ back) pivot = front ++ pivot :: back.
Proof.
  intros Hfront Hback. unfold insert_pivot.
  rewrite (binary_search_partition front back pivot Hfront Hback);
    [|rewrite ?length_app; lia..].
  by rewrite take_app_length, drop_app_length.
Qed.

Lemma extend_run_chain (desc : bool) (prev : A) (l run rest : list A) :
  extend_run comparefn desc prev l = (run, rest) → chain comparefn desc prev run.
Proof.
  revert prev run rest. induction l as [|cur l IH]; simpl; intros prev run rest.
  - by intros [= <- <-].
  - destruct (Bool.eqb _ desc) eqn:Heq.
    + destruct (extend_run comparefn desc cur l) as [run' rest'] eqn:Hrun.
      intros [= <- <-]. simpl. split; [by apply Bool.eqb_prop|by eapply IH].
    + by intros [= <- <-].
Qed.
End ArraySortFacts.

(** ** The order of the rows

    What the sort does with the comparator of the report, on results that
    are "Error" or a finite percentage. *)

Lemma Qle_bool_sub (x y : Q) : Qle_bool 0 (Qred (x - y)) = Qle_bool y x.
Proof.
  apply Bool.eq_iff_eq_true. rewrite !Qle_bool_iff, Qred_correct. split; lra.
Qed.

Lemma row_lt_spec (x y : result) :
  scored_or_error x → scored_or_error y →
  order_lt0 compare_results x y
  = if counts_error x then true
    else if counts_error y then false
    else negb (Qle_bool (percentage y) (percentage x)).
Proof.
  unfold scored_or_error, order_lt0, compare_results, counts_error, percentage.
  destruct (similarityPercentage x) as [[qx| |]|sx],
           (similarityPercentage y) as [[qy| |]|sy];
    simpl; try done; intros; subst; try done.
  by rewrite Qle_bool_sub.
Qed.

Lemma filter_all {A} (f : A → bool) (l : list A) :
  Forall (λ x, f x = true) l → List.filter f l = l.
Proof. induction 1 as [|x l Hx _ IH]; simpl; [done|]. by rewrite Hx, IH. Qed.

Lemma filter_none {A} (f : A → bool) (l : list A) :
  Forall (λ x, f x = false) l → List.filter f l = [].
Proof. induction 1 as [|x l Hx _ IH]; simpl; [done|]. by rewrite Hx. Qed.

Lemma insert_stable_perm (x : result) (l : list result) :
  insert_stable x l ≡ₚ x :: l.
Proof.
  induction l as [|y l IH]; simpl; [done|].
  destruct (Qle_bool _ _); [|done]. rewrite IH. apply perm_swap.
Qed.

Lemma foldl_insert_stable_perm (l acc : list result) :
  foldl (λ sorted x, insert_stable x sorted) acc l ≡ₚ acc ++ l.
Proof.
  revert acc. induction l as [|x l IH]; intros acc; simpl.
  - by rewrite app_nil_r.
  - rewrite IH, insert_stable_perm. by rewrite <- Permutation_middle.
Qed.

Lemma sort_stable_perm (l : list result) : sort_stable l ≡ₚ l.
Proof. apply foldl_insert_stable_perm. Qed.

Lemma insert_stable_sorted (x : result) (l : list result) :
  StronglySorted le_row l → StronglySorted le_row (insert_stable x l).
Proof.
  induction 1 as [|y l Hsorted IH Hall]; simpl.
  - repeat constructor.
  - destruct (Qle_bool (percentage y) (percentage x)) eqn:Hle.
    + constructor; [done|].
      rewrite insert_stable_perm. constructor; [|done].
      by apply Qle_bool_iff.
    + apply Qle_bool_false in Hle.
      constructor; [by constructor|].
      constructor; [unfold le_row; lra|].
      eapply Forall_impl; [done|]. unfold le_row. intros z Hz. simpl in Hz. lra.
Qed.

Lemma sort_stable_sorted (l : list result) : StronglySorted le_row (sort_stable l).
Proof.
  unfold sort_stable. generalize (SSorted_nil le_row).
  generalize (@nil result). induction l as [|x l IH]; intros acc Hacc; simpl.
  - done.
  - apply IH. by apply insert_stable_sorted.
Qed.

Lemma insert_stable_split (x : result) (l : list result) :
  StronglySorted le_row l →
  ∃ front back,
    l = front ++ back
    ∧ Forall (λ y, Qle_bool (percentage y) (percentage x) = true) front
    ∧ Forall (λ y, Qle_bool (percentage y) (percentage x) = false) back
    ∧ insert_stable x l = front ++ x :: back.
Proof.
  induction 1 as [|y l Hsorted IH Hall]; simpl.
  - by exists [], [].
  - destruct (Qle_bool (percentage y) (percentage x)) eqn:Hle.
    + destruct IH as (front & back & -> & Hfront & Hback & ->).
      exists (y :: front), back. repeat split; try done. by constructor.
    + exists [], (y :: l). repeat split; try done.
      constructor; [done|].
      apply Qle_bool_false in Hle.
      eapply Forall_impl; [done|]. unfold le_row. intros z Hz. simpl in Hz.
      apply Qle_bool_false. lra.
Qed.

Lemma foldl_insert_ascending (l acc : list result) :
  StronglySorted le_row (acc ++ l) →
  foldl (λ sorted x, insert_stable x sorted) acc l = acc ++ l.
Proof.
  revert acc. induction l as [|x l IH]; intros acc Hsorted; simpl.
  - by rewrite app_nil_r.
  - assert (insert_stable x acc = acc ++ [x]) as ->.
    { clear IH. induction acc as [|y acc IH]; simpl; [done|].
      simpl in Hsorted. apply StronglySorted_inv in Hsorted as [Hsorted Hall].
      assert (Qle_bool (percentage y) (percentage x) = true) as ->.
      { apply Qle_bool_iff. apply Forall_app in Hall as [_ Hall].
        by apply Forall_cons in Hall as [Hx _]. }
      by rewrite IH. }
    rewrite IH; rewrite <- app_assoc; done.
Qed.

Lemma sort_stable_ascending (l : list result) :
  StronglySorted le_row l → sort_stable l = l.
Proof. intros H. by apply (foldl_insert_ascending l []). Qed.

Lemma foldl_insert_descending (l acc : list result) :
  StronglySorted gt_row (rev acc ++ l) →
  foldl (λ sorted x, insert_stable x sorted) acc l = rev l ++ acc.
Proof.
  revert acc. induction l as [|x l IH]; intros acc Hsorted; simpl; [done|].
  assert (insert_stable x acc = x :: acc) as ->.
  { destruct acc as [|y acc]; simpl; [done|].
    assert (Qle_bool (percentage y) (percentage x) = false) as ->; [|done].
    apply Qle_bool_false. simpl in Hsorted. rewrite <- app_assoc in Hsorted.
    clear IH. induction (rev acc) as [|z racc IHr]; simpl in Hsorted.
    - apply StronglySorted_inv in Hsorted as [_ Hall].
      by apply Forall_cons in Hall as [Hx _].
    - apply StronglySorted_inv in Hsorted as [Hsorted _]. by apply IHr. }
  rewrite IH; [by rewrite <- app_assoc|].
  simpl. by rewrite <- app_assoc.
Qed.

Lemma sort_stable_descending (l : list result) :
  StronglySorted gt_row l → sort_stable l = rev l.
Proof.
  intros H. unfold sort_stable.
  rewrite (foldl_insert_descending l []); [by rewrite app_nil_r|done].
Qed.

Lemma Forall_filter_keeps {A} (P : A → Prop) (f : A → bool) (l : list A) :
  Forall P l → Forall P (List.filter f l).
Proof.
  induction 1 as [|x l Hx _ IH]; simpl; [done|].
  destruct (f x); [by constructor|done].
Qed.

Lemma Forall_filter_holds {A} (f : A → bool) (l : list A) :
  Forall (λ x, f x = true) (List.filter f l).
Proof.
  induction l as [|x l IH]; simpl; [done|].
  destruct (f x) eqn:Hx; [by constructor|done].
Qed.

Lemma scored_expected_order (l : list result) :
  Forall scored_or_error l → Forall scored_or_error (expected_order l).
Proof.
  intros Hl. unfold expected_order. apply Forall_app. split.
  - rewrite <- Permutation_rev. by apply Forall_filter_keeps.
  - rewrite sort_stable_perm. by apply Forall_filter_keeps.
Qed.

Lemma errors_of (l : list result) :
  Forall (λ r, counts_error r = true) (rev (List.filter counts_error l)).
Proof. rewrite <- Permutation_rev. apply Forall_filter_holds. Qed.

Lemma scored_of (l : list result) :
  Forall (λ r, counts_error r = false)
    (sort_stable (List.filter (λ r, negb (counts_error r)) l)).
Proof.
  rewrite sort_stable_perm.
  eapply Forall_impl; [apply Forall_filter_holds|].
  intros r Hr. simpl in Hr. by apply negb_true_iff.
Qed.

(** Inserting the next row by binary search gives the reference order of
    the rows seen so far. *)
Lemma insert_pivot_expected (seen : list result) (x : result) :
  Forall scored_or_error seen → scored_or_error x →
  insert_pivot compare_results (expected_order seen) x
  = expected_order (seen ++ [x]).
Proof.
  intros Hseen Hx.
  pose proof (scored_expected_order seen Hseen) as Hscored.
  pose proof (errors_of seen) as Herr. pose proof (scored_of seen) as Hnum.
  unfold expected_order in *. rewrite !List.filter_app. simpl.
  apply Forall_app in Hscored as [Hscored1 Hscored2].
  destruct (counts_error x) eqn:Hex; simpl.
  - rewrite rev_app_distr, app_nil_r. simpl.
    apply (insert_pivot_partition compare_results [] _ x); [done|].
    apply Forall_app. split.
    + eapply Forall_impl; [exact Hscored1|]. intros y Hy. simpl in Hy.
      by rewrite row_lt_spec, Hex.
    + eapply Forall_impl; [exact Hscored2|]. intros y Hy. simpl in Hy.
      by rewrite row_lt_spec, Hex.
  - rewrite app_nil_r. unfold sort_stable at 2. rewrite foldl_app. simpl.
    fold (sort_stable (List.filter (λ r, negb (counts_error r)) seen)).
    set (sorted := sort_stable _) in *.
    destruct (insert_stable_split x sorted (sort_stable_sorted _))
      as (front & back & Hsplit & Hfront & Hback & ->).
    rewrite Hsplit in *. rewrite !app_assoc.
    apply Forall_app in Hscored2 as [Hs1 Hs2].
    apply Forall_app in Hnum as [Hn1 Hn2].
    apply insert_pivot_partition.
    + apply Forall_app. split.
      * apply Forall_forall. intros y Hy.
        rewrite row_lt_spec, Hex; [|done|by eapply Forall_forall in Hscored1].
        by rewrite (proj1 (Forall_forall _ _) Herr y Hy).
      * apply Forall_forall. intros y Hy.
        rewrite row_lt_spec, Hex; [|done|by eapply Forall_forall in Hs1].
        rewrite (proj1 (Forall_forall _ _) Hn1 y Hy).
        by rewrite (proj1 (Forall_forall _ _) Hfront y Hy).
    + apply Forall_forall. intros y Hy.
      rewrite row_lt_spec, Hex; [|done|by eapply Forall_forall in Hs2].
      rewrite (proj1 (Forall_forall _ _) Hn2 y Hy).
      by rewrite (proj1 (Forall_forall _ _) Hback y Hy).
Qed.

Lemma binary_insertion_sort_expected (rest seen : list result) :
  Forall scored_or_error seen → Forall scored_or_error rest →
  binary_insertion_sort compare_results (expected_order seen) rest
  = expected_order (seen ++ rest).
Proof.
  revert seen. induction rest as [|x rest IH]; intros seen Hseen Hrest.
  - by rewrite app_nil_r.
  - apply Forall_cons in Hrest as [Hx Hrest].
    unfold binary_insertion_sort. simpl.
    rewrite insert_pivot_expected by done.
    fold (binary_insertion_sort compare_results (expected_order (seen ++ [x])) rest).
    rewrite IH; [by rewrite <- app_assoc| |done].
    apply Forall_app. split; [done|by constructor].
Qed.

Lemma le_row_trans (a b c : result) : le_row a b → le_row b c → le_row a c.
Proof. unfold le_row. apply Qle_trans. Qed.

Lemma gt_row_trans (a b c : result) : gt_row a b → gt_row b c → gt_row a c.
Proof.
  unfold gt_row. intros H1 H2. by apply Qlt_trans with (percentage b).
Qed.

(** An ascending run: after its first row, scored rows in ascending order. *)
Lemma ascending_chain (run : list result) (prev : result) :
  scored_or_error prev → Forall scored_or_error run →
  chain compare_results false prev run →
  Forall (λ r, counts_error r = false) run
  ∧ Sorted le_row run
  ∧ (counts_error prev = false → HdRel le_row prev run).
Proof.
  revert prev. induction run as [|cur run IH]; intros prev Hprev Hrun Hchain.
  - by repeat split.
  - apply Forall_cons in Hrun as [Hcur Hrun]. destruct Hchain as [Hlt Hchain].
    rewrite row_lt_spec in Hlt by done.
    destruct (counts_error cur) eqn:Hecur; [done|].
    destruct (IH cur Hcur Hrun Hchain) as (Hnum & Hsorted & Hhd).
    split; [by constructor|]. split; [constructor; auto|].
    intros Heprev. rewrite Heprev in Hlt. constructor.
    apply negb_false_iff in Hlt. by apply Qle_bool_iff.
Qed.

(** A descending run: scored rows in strictly descending order, then Error
    rows only. *)
Lemma descending_chain (run : list result) (prev : result) :
  scored_or_error prev → Forall scored_or_error run →
  chain compare_results true prev run →
  ∃ scored failed,
    run = scored ++ failed
    ∧ Forall (λ r, counts_error r = false) scored
    ∧ Forall (λ r, counts_error r = true) failed
    ∧ (counts_error prev = true → scored = [])
    ∧ Sorted gt_row scored
    ∧ (counts_error prev = false → HdRel gt_row prev scored).
Proof.
  revert prev. induction run as [|cur run IH]; intros prev Hprev Hrun Hchain.
  - exists [], []. by repeat split.
  - apply Forall_cons in Hrun as [Hcur Hrun]. destruct Hchain as [Hlt Hchain].
    rewrite row_lt_spec in Hlt by done.
    destruct (IH cur Hcur Hrun Hchain)
      as (scored & failed & -> & Hscored & Hfailed & Hnone & Hsorted & Hhd).
    destruct (counts_error cur) eqn:Hecur.
    + rewrite Hnone by done. exists [], (cur :: failed).
      repeat split; try done. by constructor.
    + destruct (counts_error prev) eqn:Heprev; [done|].
      exists (cur :: scored), failed.
      repeat split; try done.
      * by constructor.
      * constructor; auto.
      * intros _. constructor. apply negb_true_iff in Hlt.
        by apply Qle_bool_false.
Qed.

Lemma expected_order_ascending (a0 : result) (run : list result) :
  scored_or_error a0 → Forall scored_or_error run →
  chain compare_results false a0 run →
  expected_order (a0 :: run) = a0 :: run.
Proof.
  intros Ha0 Hrun Hchain.
  destruct (ascending_chain run a0 Ha0 Hrun Hchain) as (Hnum & Hsorted & Hhd).
  unfold expected_order. simpl. rewrite (filter_none counts_error run Hnum).
  rewrite (filter_all (λ r, negb (counts_error r)) run)
    by (eapply Forall_impl; [done|]; by intros r ->).
  destruct (counts_error a0) eqn:Hea0; simpl.
  - f_equal. apply sort_stable_ascending.
    apply Sorted_StronglySorted; [exact le_row_trans|done].
  - apply sort_stable_ascending.
    apply Sorted_StronglySorted; [exact le_row_trans|]. constructor; auto.
Qed.

Lemma expected_order_descending (a0 : result) (run : list result) :
  scored_or_error a0 → Forall scored_or_error run →
  chain compare_results true a0 run →
  expected_order (a0 :: run) = rev (a0 :: run).
Proof.
  intros Ha0 Hrun Hchain.
  destruct (descending_chain run a0 Ha0 Hrun Hchain)
    as (scored & failed & -> & Hscored & Hfailed & Hnone & Hsorted & Hhd).
  unfold expected_order. simpl. rewrite !List.filter_app.
  rewrite (filter_none counts_error scored Hscored).
  rewrite (filter_all counts_error failed Hfailed).
  rewrite (filter_all (λ r, negb (counts_error r)) scored)
    by (eapply Forall_impl; [done|]; by intros r ->).
  rewrite (filter_none (λ r, negb (counts_error r)) failed)
    by (eapply Forall_impl; [done|]; by intros r ->).
  rewrite app_nil_r. simpl.
  destruct (counts_error a0) eqn:Hea0; simpl.
  - rewrite Hnone by done. simpl. by rewrite app_nil_r.
  - rewrite rev_app_distr, <- app_assoc. f_equal.
    change (rev scored ++ [a0]) with (rev (a0 :: scored)).
    apply sort_stable_descending.
    apply Sorted_StronglySorted; [exact gt_row_trans|]. constructor; auto.
Qed.

Lemma count_and_make_run_expected (l run rest : list result) :
  Forall scored_or_error l →
  count_and_make_run compare_results l = (run, rest) →
  ∃ seen, l = seen ++ rest ∧ run = expected_order seen.
Proof.
  intros Hl. destruct l as [|a0 [|a1 l]]; simpl.
  - intros [= <- <-]. by exists [].
  - intros [= <- <-]. exists [a0]. split; [done|].
    unfold expected_order. simpl. by destruct (counts_error a0).
  - destruct (extend_run compare_results _ a1 l) as [run' rest'] eqn:Hrun.
    pose proof (extend_run_chain _ _ _ _ _ _ Hrun) as Hchain.
    apply extend_run_app in Hrun as ->.
    intros [= <- <-]. exists (a0 :: a1 :: run'). split; [done|].
    apply Forall_cons in Hl as [Ha0 Hl].
    assert (Forall scored_or_error (a1 :: run')) as Hrun.
    { apply Forall_cons in Hl as [Ha1 Hl]. apply Forall_app in Hl as [Hl _].
      by constructor. }
    destruct (order_lt0 compare_results a1 a0) eqn:Hdesc.
    + symmetry. by apply expected_order_descending.
    + symmetry. by apply expected_order_ascending.
Qed.

Lemma array_sort_expected_order (l : list result) :
  Forall scored_or_error l →
  array_sort compare_results l = expected_order l.
Proof.
  intros Hl. unfold array_sort.
  destruct (count_and_make_run compare_results l) as [run rest] eqn:Hrun.
  destruct (count_and_make_run_expected l run rest Hl Hrun) as (seen & -> & ->).
  apply Forall_app in Hl as [Hseen Hrest].
  by apply binary_insertion_sort_expected.
Qed.

(** X2: the rows of a report of fewer than 64 such results: the Error rows first,
    the later ones before the earlier ones, then the scored rows by ascending
    percentage, equal percentages in their original order. *)
Lemma report_rows_expected_order (E : externals) (cfg : config)
    (results : list result) (deviceName : string) (w : world) :
  (length results < 64)%nat →
  Forall scored_or_error results →
  ∃ reportPath doc,
    generateHtmlReport E cfg results deviceName w = (Ok (reportPath, doc), w)
    ∧ rows doc = render_row E cfg deviceName (files w) <$> expected_order results.
Proof.
  intros _ Hresults. eexists _, _. split; [reflexivity|].
  simpl. by rewrite array_sort_expected_order.
Qed.

(** ** Stepping through the script *)

Lemma bind_Ok_inv {A B} (m : M A) (k : A → M B) (w w' : world) (b : B) :
  (m ≫= k) w = (Ok b, w') →
  ∃ a w1, m w = (Ok a, w1) ∧ k a w1 = (Ok b, w').
Proof.
  unfold mbind, M_bind. destruct (m w) as [[a|message] w1]; [eauto|done].
Qed.

Lemma bind_Ok {A B} (m : M A) (k : A → M B) (w w1 : world) (a : A) :
  m w = (Ok a, w1) → (m ≫= k) w = k a w1.
Proof. unfold mbind, M_bind. by intros ->. Qed.

Lemma bind_Throw {A B} (m : M A) (k : A → M B) (w w1 : world) message :
  m w = (Throw message, w1) → (m ≫= k) w = (Throw message, w1).
Proof. unfold mbind, M_bind. by intros ->. Qed.

(** [captureScreenshot] never throws. *)
Lemma captureScreenshot_returns (E : externals) (url path : string) (w : world) :
  ∃ w', captureScreenshot E url path w = (Ok tt, w').
Proof.
  unfold captureScreenshot, try_catch, mbind, M_bind, log, lift, writeFileSync.
  destruct (acquire E url); eauto.
Qed.

(** What a failed capture leaves: no file, and the message on the console. *)
Lemma captureScreenshot_failure (E : externals) (url path message : string)
    (w : world) :
  acquire E url = Throw message →
  captureScreenshot E url path w
  = (Ok tt,
     mkWorld (files w)
       ((console w ++ ["Navigating to: " +:+ url])
        ++ ["Failed to capture screenshot for " +:+ url +:+ ": " +:+ message])).
Proof.
  intros Hacq.
  unfold captureScreenshot, try_catch, mbind, M_bind, log, lift.
  by rewrite Hacq.
Qed.

(** [compareScreenshots] on a missing capture. *)
Lemma compareScreenshots_missing (E : externals)
    (baselinePath currentPath diffPath : string) (w : world) :
  files w !! baselinePath = None ∨ files w !! currentPath = None →
  compareScreenshots E baselinePath currentPath diffPath w
  = (Ok (VStr "Error"),
     mkWorld (files w)
       (console w
        ++ ["Missing file(s): " +:+ baselinePath +:+ " or " +:+ currentPath])).
Proof.
  intros Hmissing.
  unfold compareScreenshots, existsSync, mbind, M_bind.
  assert (negb (bool_decide (is_Some (files w !! baselinePath)))
          || negb (bool_decide (is_Some (files w !! currentPath))) = true)
    as ->; [|done].
  destruct Hmissing as [-> | ->]; rewrite (bool_decide_eq_false_2 (is_Some None));
    try (by apply is_Some_None); [done | by rewrite orb_true_r].
Qed.

(** One turn of the loop always pushes a result for its page. *)
Lemma process_page_returns (E : externals) (cfg : config)
    (baseDir p : string) (w : world) :
  ∃ r w', process_page E cfg baseDir p w = (Ok r, w') ∧ pagePath r = p.
Proof.
  unfold process_page, try_catch.
  match goal with |- context [match ?body w with _ => _ end] =>
    destruct (body w) as [[r|message] w'] eqn:Hbody end.
  - exists r, w'. split; [done|].
    apply bind_Ok_inv in Hbody as (_ & w1 & _ & Hbody).
    apply bind_Ok_inv in Hbody as (_ & w2 & _ & Hbody).
    apply bind_Ok_inv in Hbody as (sim & w3 & _ & Hbody).
    by injection Hbody as <- _.
  - eexists _, _. split; [reflexivity|done].
Qed.

Lemma for_each_page_returns (E : externals) (cfg : config) (baseDir : string)
    (paths : list string) (results : list result) (w : world) :
  ∃ pushed w',
    for_each_page E cfg baseDir paths results w = (Ok (results ++ pushed), w')
    ∧ pagePath <$> pushed = paths.
Proof.
  revert results w. induction paths as [|p paths IH]; intros results w; simpl.
  - exists [], w. by rewrite app_nil_r.
  - destruct (process_page_returns E cfg baseDir p w) as (r & w1 & Hr & Hp).
    rewrite (bind_Ok _ _ _ _ _ Hr).
    destruct (IH (results ++ [r]) w1) as (pushed & w' & Hloop & Hpaths).
    exists (r :: pushed), w'. split.
    + by rewrite Hloop, <- app_assoc.
    + by rewrite fmap_cons, Hp, Hpaths.
Qed.

(** ** Isolation and completeness *)

(** C3: whatever the libraries do (captures that fail, files that do not
    decode), the test runs to its end; the loop pushes one result per page
    of [config.staging.urls], in order, and the rows of the report link to
    the same pages, each as often as it is listed. *)
Theorem every_page_reported (E : externals) (cfg : config) (w : world) :
  ∃ results reportPath doc w',
    compare_test E cfg w = (Ok (results, (reportPath, doc)), w')
    ∧ pagePath <$> results = urls (staging cfg)
    ∧ total_pages doc = length (urls (staging cfg))
    ∧ staging_href <$> rows doc
      ≡ₚ (λ p, baseUrl (staging cfg) +:+ p) <$> urls (staging cfg)
    ∧ prod_href <$> rows doc
      ≡ₚ (λ p, baseUrl (prod cfg) +:+ p) <$> urls (staging cfg).
Proof.
  unfold compare_test.
  destruct (for_each_page_returns E cfg "screenshots/Desktop"
              (urls (staging cfg)) [] (mkWorld (files w) (console w ++ ["Running tests..."])))
    as (results & w' & Hloop & Hpaths).
  simpl in Hloop.
  eexists results, _, _, w'. split.
  { unfold mbind at 1. unfold M_bind at 1. unfold log at 1.
    rewrite (bind_Ok _ _ _ _ _ Hloop). reflexivity. }
  simpl. split; [done|]. split; [by rewrite <- Hpaths, length_fmap|].
  rewrite <- Hpaths, <- !list_fmap_compose.
  split; by rewrite (array_sort_perm compare_results results).
Qed.

(** Five pages, the third of which fails to load on staging: five results,
    the third one "Error", the others scored. *)
Lemma isolation_example :
  ∃ report w',
    compare_test Standin.third_page_down Standin.five_pages Standin.empty_world
    = (Ok ([ mkResult "/a" (VNum (Fin 100)) None;
             mkResult "/b" (VNum (Fin 100)) None;
             mkResult "/c" (VStr "Error") None;
             mkResult "/d" (VNum (Fin 100)) None;
             mkResult "/e" (VNum (Fin 100)) None ], report), w').
Proof. eexists _, _. vm_compute. reflexivity. Qed.

(** The configured pages are pairwise distinct. *)
Lemma configured_pages_distinct : NoDup (urls (staging sheridan_config)).
Proof. apply (bool_decide_unpack _). vm_compute. exact I. Qed.

(** ** Missing captures *)

(** C4, as the code has it: when a capture file is missing once both
    captures have been attempted, the result pushed for the page is
    [{ pagePath, similarityPercentage: "Error" }] without any message, no
    file is touched after the acquisition (no resize, no diff), the console
    gets the "Missing file(s)" line, and the row of the report shows "Error"
    as similarity and as status. *)
Theorem missing_capture_recorded_as_error (E : externals) (cfg : config)
    (baseDir p : string) (w : world) :
  let w1 := after_acquisition E cfg baseDir p w in
  let stagingPath := path_join3 baseDir "staging" (replace_slash p +:+ ".png") in
  let prodPath := path_join3 baseDir "prod" (replace_slash p +:+ ".png") in
  files w1 !! stagingPath = None ∨ files w1 !! prodPath = None →
  process_page E cfg baseDir p w
  = (Ok (mkResult p (VStr "Error") None),
     mkWorld (files w1)
       (console w1
        ++ ["Missing file(s): " +:+ stagingPath +:+ " or " +:+ prodPath]))
  ∧ ∀ deviceName fs,
      let row := render_row E cfg deviceName fs (mkResult p (VStr "Error") None) in
      similarity_cell row = "Error"
      ∧ status_class row = "status-error"
      ∧ status_text row = "Error".
Proof.
  intros w1 stagingPath prodPath Hmissing. split; [|done].
  destruct (captureScreenshot_returns E (baseUrl (staging cfg) +:+ p)
              stagingPath w) as [wa Ha].
  destruct (captureScreenshot_returns E (baseUrl (prod cfg) +:+ p)
              prodPath wa) as [wb Hb].
  assert (w1 = wb) as Hw1.
  { unfold w1, after_acquisition. fold stagingPath prodPath.
    by rewrite (bind_Ok _ _ _ _ _ Ha), Hb. }
  clearbody w1. subst w1.
  unfold process_page, try_catch. fold stagingPath prodPath.
  rewrite (bind_Ok _ _ _ _ _ Ha), (bind_Ok _ _ _ _ _ Hb).
  by rewrite (bind_Ok _ _ _ _ _ (compareScreenshots_missing E _ _ _ wb Hmissing)).
Qed.

Lemma missing_capture_witness :
  process_page Standin.offline Standin.one_page "screenshots/Desktop" "/"
    Standin.empty_world
  = (Ok (mkResult "/" (VStr "Error") None),
     mkWorld ∅
       [ "Navigating to: https://staging.example/";
         "Failed to capture screenshot for https://staging.example/: net::ERR_CONNECTION_REFUSED";
         "Navigating to: https://www.example/";
         "Failed to capture screenshot for https://www.example/: net::ERR_CONNECTION_REFUSED";
         "Missing file(s): screenshots/Desktop/staging/_.png or screenshots/Desktop/prod/_.png" ]).
Proof.
  apply (missing_capture_recorded_as_error Standin.offline Standin.one_page
           "screenshots/Desktop" "/" Standin.empty_world).
  left. vm_compute. reflexivity.
Defined.

(** C4 as stated fails: with every capture refused, the message of the
    failure is written to the console only; the result recorded for the page
    has no [error] field, and the row of the report holds nothing but
    "Error". *)
Lemma acquirer_message_not_recorded :
  acquire Standin.offline "https://staging.example/"
  = Throw "net::ERR_CONNECTION_REFUSED"
  ∧ ∃ reportPath doc w',
      compare_test Standin.offline Standin.one_page Standin.empty_world
      = (Ok ([mkResult "/" (VStr "Error") None], (reportPath, doc)), w')
      ∧ error <$> [mkResult "/" (VStr "Error") None] = [None]
      ∧ rows doc
        = [ {| staging_href := "https://staging.example/";
               prod_href := "https://www.example/";
               similarity_cell := "Error";
               status_class := "status-error";
               status_text := "Error";
               staging_image := None;
               prod_image := None;
               diff_image := None |} ].
Proof.
  split; [reflexivity|]. eexists _, _, _.
  split; [vm_compute; reflexivity|]. split; reflexivity.
Qed.

(** ** Normalization in place *)

Lemma resizeImage_inv (E : externals) (path : string) (tw th : N)
    (w w' : world) (u : unit) :
  resizeImage E path tw th w = (Ok u, w') →
  ∃ original resized,
    files w !! path = Some original
    ∧ sharp_resize E original tw th = Ok resized
    ∧ w' = mkWorld (<[path := resized]> (files w)) (console w).
Proof.
  unfold resizeImage, mbind, M_bind, readFileSync, lift, writeFileSync.
  destruct (files w !! path) as [original|]; [|done].
  destruct (sharp_resize E original tw th) as [resized|] eqn:Hsharp; [|done].
  intros [= _ <-]. eauto.
Qed.

(** ** The size check *)

Lemma existsSync_inv (path : string) (w w' : world) (b : bool) :
  existsSync path w = (Ok b, w') →
  b = bool_decide (is_Some (files w !! path)) ∧ w' = w.
Proof. unfold existsSync. by intros [= <- <-]. Qed.

Lemma readFileSync_inv (path : string) (w w' : world) (content : bytes) :
  readFileSync path w = (Ok content, w') →
  files w !! path = Some content ∧ w' = w.
Proof.
  unfold readFileSync. destruct (files w !! path); [|done].
  by intros [= <- <-].
Qed.

Lemma lift_inv {A} (o : outcome A) (w w' : world) (a : A) :
  lift o w = (Ok a, w') → o = Ok a ∧ w' = w.
Proof. unfold lift. by intros [= <- <-]. Qed.

(** After the two resizes both files are outputs of the resize, also when
    the two paths are the same file. *)
Lemma resized_twice (E : externals) (baselinePath currentPath : string)
    (w w1 w2 : world) (u1 u2 : unit) :
  resizeImage E baselinePath 1280 800 w = (Ok u1, w1) →
  resizeImage E currentPath 1280 800 w1 = (Ok u2, w2) →
  ∃ source1 resized1 source2 resized2,
    sharp_resize E source1 1280 800 = Ok resized1
    ∧ sharp_resize E source2 1280 800 = Ok resized2
    ∧ files w2 !! baselinePath = Some resized1
    ∧ files w2 !! currentPath = Some resized2.
Proof.
  intros (o1 & r1 & Hread1 & Hsharp1 & ->)%resizeImage_inv
         (o2 & r2 & Hread2 & Hsharp2 & ->)%resizeImage_inv.
  simpl in *. destruct (decide (currentPath = baselinePath)) as [->|Hne].
  - exists o2, r2, o2, r2. by rewrite !lookup_insert_eq.
  - exists o1, r1, o2, r2.
    by rewrite lookup_insert_ne, !lookup_insert_eq.
Qed.

(** C8: when the resize to 1280 x 800 gives files that decode at that size,
    [compareScreenshots] does not return "Size mismatch", whatever the files
    and whatever else the libraries do. *)
Theorem size_mismatch_unreachable (E : externals)
    (baselinePath currentPath diffPath : string) (w : world) :
  canonical_canvas E →
  fst (compareScreenshots E baselinePath currentPath diffPath w)
  ≠ Ok (VStr "Size mismatch").
Proof.
  intros Hcanvas.
  destruct (compareScreenshots E baselinePath currentPath diffPath w)
    as [o w'] eqn:Hrun.
  simpl. intros ->. unfold compareScreenshots in Hrun.
  apply bind_Ok_inv in Hrun as (b1 & ? & [-> ->]%existsSync_inv & Hrun).
  apply bind_Ok_inv in Hrun as (b2 & ? & [-> ->]%existsSync_inv & Hrun).
  destruct (negb _ || negb _).
  { apply bind_Ok_inv in Hrun as (? & ? & _ & Hrun). by injection Hrun. }
  apply bind_Ok_inv in Hrun as (u1 & w1 & Hresize1 & Hrun).
  apply bind_Ok_inv in Hrun as (u2 & w2 & Hresize2 & Hrun).
  destruct (resized_twice E _ _ _ _ _ _ _ Hresize1 Hresize2)
    as (s1 & r1 & s2 & r2 & Hsharp1 & Hsharp2 & Hfile1 & Hfile2).
  apply bind_Ok_inv in Hrun as (file1 & ? & [Hread1 ->]%readFileSync_inv & Hrun).
  apply bind_Ok_inv in Hrun as (img1 & ? & [Hpng1 ->]%lift_inv & Hrun).
  apply bind_Ok_inv in Hrun as (file2 & ? & [Hread2 ->]%readFileSync_inv & Hrun).
  apply bind_Ok_inv in Hrun as (img2 & ? & [Hpng2 ->]%lift_inv & Hrun).
  assert (file1 = r1) as -> by congruence.
  assert (file2 = r2) as -> by congruence.
  destruct (Hcanvas _ _ _ Hsharp1 Hpng1) as [Hw1 Hh1].
  destruct (Hcanvas _ _ _ Hsharp2 Hpng2) as [Hw2 Hh2].
  rewrite Hw1, Hw2, Hh1, Hh2 in Hrun. simpl in Hrun.
  apply bind_Ok_inv in Hrun as (? & ? & _ & Hrun).
  apply bind_Ok_inv in Hrun as (? & ? & _ & Hrun).
  apply bind_Ok_inv in Hrun as (? & ? & _ & Hrun).
  by injection Hrun.
Qed.

Lemma canonical_canvas_standin : canonical_canvas Standin.canonical.
Proof. intros buffer resized r _ [= <-]. done. Qed.

Lemma size_mismatch_unreachable_witness :
  fst (compareScreenshots Standin.canonical "staging.png" "prod.png" "diff.png"
         (mkWorld {[ "staging.png" := Standin.red; "prod.png" := Standin.blue ]} []))
  ≠ Ok (VStr "Size mismatch").
Proof.
  apply (size_mismatch_unreachable Standin.canonical).
  exact canonical_canvas_standin.
Defined.

(** ** Similarity *)

Lemma count_differing_le (E : externals) (img1 img2 : raster) (len : nat) :
  (count_differing E img1 img2 len ≤ len)%nat.
Proof.
  induction len as [|i IH]; simpl; [done|].
  destruct (pixel_differs E img1 img2 i); lia.
Qed.

(** On buffers that fit the given size, pixelmatch returns a count no
    larger than the number of pixels, and [0] for identical buffers. *)
Lemma pixelmatch_count (E : externals) (img1 img2 : raster) :
  well_formed img1 → well_formed img2 →
  width img1 = width img2 → height img1 = height img2 →
  ∃ mismatched,
    pixelmatch E img1 img2 None (width img1) (height img1) = Ok mismatched
    ∧ (mismatched ≤ N.to_nat (width img1 * height img1))%nat
    ∧ (data img1 = data img2 → mismatched = 0%nat).
Proof.
  unfold well_formed, pixelmatch. intros Hwf1 Hwf2 Hw Hh.
  rewrite Hwf1, Hwf2, <- Hw, <- Hh, !N.eqb_refl. simpl.
  case_bool_decide as Hsame.
  - exists 0%nat. split; [done|]. split; [lia|done].
  - eexists. split; [done|]. split; [apply count_differing_le|done].
Qed.

(** *** Rounding *)

Section Rounding.
Local Open Scope Q_scope.
Import Binary64.

Lemma pow2_pos (e : Z) : 0 < 2 ^ e.
Proof. by apply Qpower_0_lt. Qed.

Lemma pow2_plus (a b : Z) : 2 ^ (a + b) == 2 ^ a * 2 ^ b.
Proof. by apply Qpower_plus. Qed.

Lemma pow2_le (a b : Z) : (a <= b)%Z → 2 ^ a <= 2 ^ b.
Proof.
  intros Hab. apply Qpower_le_compat_l; [done|]. by apply (Qle_bool_iff 1 2).
Qed.

Lemma pow2_lt_inv (a b : Z) : 2 ^ a < 2 ^ b → (a < b)%Z.
Proof.
  intros Hlt. destruct (Z_lt_le_dec a b) as [|Hle]; [done|].
  apply pow2_le in Hle. exfalso. by apply (Qlt_not_le _ _ Hlt).
Qed.

Lemma pow2_integer (n : Z) : (0 <= n)%Z → 2 ^ n == inject_Z (2 ^ n).
Proof. intros Hn. by rewrite Zpower_Qpower. Qed.

(** The nearest integer is at most one half away. *)
Lemma nearest_even_error (y : Q) :
  Qabs (inject_Z (nearest_even y) - y) <= 1 # 2.
Proof.
  unfold nearest_even.
  pose proof (Qfloor_le y) as Hlow. pose proof (Qlt_floor y) as Hhigh.
  rewrite inject_Z_plus in Hhigh. change (inject_Z 1) with 1 in Hhigh.
  apply Qabs_Qle_condition.
  destruct (y - inject_Z (Qfloor y) ?= 1 # 2) eqn:Hcmp.
  - apply Qeq_alt in Hcmp.
    destruct (Z.even (Qfloor y)); rewrite ?inject_Z_plus;
      change (inject_Z 1) with 1; split; lra.
  - apply Qlt_alt in Hcmp. split; lra.
  - apply Qgt_alt in Hcmp. rewrite inject_Z_plus. change (inject_Z 1) with 1.
    split; lra.
Qed.

(** It does not cross an integer. *)
Lemma nearest_even_le (y : Q) (n : Z) :
  y <= inject_Z n → (nearest_even y <= n)%Z.
Proof.
  intros Hy. unfold nearest_even.
  pose proof (Qfloor_le y) as Hlow.
  assert (Qfloor y <= n)%Z as Hfloor.
  { rewrite <- (Qfloor_Z n). by apply Qfloor_resp_le. }
  destruct (y - inject_Z (Qfloor y) ?= 1 # 2) eqn:Hcmp; [|done|].
  - apply Qeq_alt in Hcmp.
    assert (Qfloor y ≠ n); [|destruct (Z.even (Qfloor y)); lia].
    intros Heq. rewrite Heq in Hcmp. lra.
  - apply Qgt_alt in Hcmp.
    assert (Qfloor y ≠ n); [|lia].
    intros Heq. rewrite Heq in Hcmp. lra.
Qed.

Lemma nearest_even_ge (y : Q) (n : Z) :
  inject_Z n <= y → (n <= nearest_even y)%Z.
Proof.
  intros Hy. unfold nearest_even.
  assert (n <= Qfloor y)%Z as Hfloor.
  { rewrite <- (Qfloor_Z n). by apply Qfloor_resp_le. }
  destruct (y - inject_Z (Qfloor y) ?= 1 # 2); [|done|lia].
  destruct (Z.even (Qfloor y)); lia.
Qed.

(** [2 ^ exponent a] is not above [a]. *)
Lemma exponent_le (a : Q) : 0 < a → 2 ^ exponent a <= a.
Proof.
  intros Ha. unfold exponent.
  destruct (Qle_bool _ a) eqn:Hle; [by apply Qle_bool_iff|].
  destruct a as [n d]. simpl Qnum. simpl Qden.
  assert (0 < n)%Z as Hn.
  { unfold Qlt in Ha. simpl in Ha. lia. }
  pose proof (Z.log2_spec n Hn) as [Hnlow _].
  pose proof (Z.log2_spec (Zpos d) (Pos2Z.is_pos d)) as [_ Hdhigh].
  pose proof (Z.log2_nonneg n) as Hln.
  pose proof (Z.log2_nonneg (Zpos d)) as Hld.
  replace (Z.log2 n - Z.log2 (Z.pos d) - 1)%Z
    with (Z.log2 n + - Z.succ (Z.log2 (Z.pos d)))%Z by lia.
  rewrite pow2_plus, Qpower_opp.
  rewrite (pow2_integer (Z.log2 n)), (pow2_integer (Z.succ (Z.log2 (Z.pos d))))
    by lia.
  rewrite (Qmake_Qdiv n d).
  assert (0 < inject_Z (Z.pos d)) as Hdpos by (by rewrite <- (Zlt_Qlt 0)).
  assert (0 < inject_Z (2 ^ Z.succ (Z.log2 (Z.pos d)))) as Hppos.
  { rewrite <- (Zlt_Qlt 0). lia. }
  apply Qle_shift_div_l; [done|].
  assert (inject_Z (2 ^ Z.log2 n) * / inject_Z (2 ^ Z.succ (Z.log2 (Z.pos d)))
          * inject_Z (Z.pos d)
          == inject_Z (2 ^ Z.log2 n) * inject_Z (Z.pos d)
             / inject_Z (2 ^ Z.succ (Z.log2 (Z.pos d)))) as ->.
  { field. intros Hzero. rewrite Hzero in Hppos. by apply (Qlt_irrefl 0). }
  apply Qle_shift_div_r; [done|].
  rewrite <- !inject_Z_mult, <- Zle_Qle. nia.
Qed.

Lemma exponent_bound (a : Q) (k : Z) :
  0 < a → a < 2 ^ (k + 1) → (exponent a <= k)%Z.
Proof.
  intros Ha Hk. pose proof (exponent_le a Ha) as Hle.
  assert (exponent a < k + 1)%Z; [|lia].
  apply pow2_lt_inv. by apply Qle_lt_trans with a.
Qed.






Lemma to_nearest_nonneg (a : Q) : 0 <= a → 0 <= to_nearest a.
Proof.
  intros Ha. unfold to_nearest.
  apply Qmult_le_0_compat; [|apply Qlt_le_weak, pow2_pos].
  rewrite <- (Zle_Qle 0). apply nearest_even_ge. change (inject_Z 0) with 0.
  apply Qmult_le_0_compat; [done|apply Qlt_le_weak, pow2_pos].
Qed.

(** Rounding does not cross an integer below [2^53]. *)
Lemma to_nearest_le (a : Q) (n : Z) :
  0 < a → a <= inject_Z n → (n < 2 ^ 53)%Z → to_nearest a <= inject_Z n.
Proof.
  intros Ha Han Hn. unfold to_nearest.
  set (e := Z.max (exponent a) (-1022)).
  assert (e <= 52)%Z as He.
  { assert (exponent a <= 52)%Z; [|lia].
    apply exponent_bound; [done|]. apply Qle_lt_trans with (inject_Z n); [done|].
    rewrite (pow2_integer (52 + 1)) by done. rewrite <- Zlt_Qlt. lia. }
  assert (inject_Z n == inject_Z (n * 2 ^ (52 - e)) * 2 ^ (e - 52)) as ->.
  { rewrite inject_Z_mult, <- (pow2_integer (52 - e)) by lia.
    rewrite <- Qmult_assoc, <- pow2_plus.
    replace (52 - e + (e - 52))%Z with 0%Z by lia. change (2 ^ 0) with 1. ring. }
  apply Qmult_le_compat_r; [|apply Qlt_le_weak, pow2_pos].
  rewrite <- Zle_Qle. apply nearest_even_le.
  rewrite inject_Z_mult, <- (pow2_integer (52 - e)) by lia.
  apply Qmult_le_compat_r; [done|apply Qlt_le_weak, pow2_pos].
Qed.

(** The rounding error is at most half a unit in the last place. *)
Lemma to_nearest_error (a : Q) (k : Z) :
  0 < a → a < 2 ^ (k + 1) → (-1022 <= k)%Z →
  Qabs (to_nearest a - a) <= 2 ^ (k - 53).
Proof.
  intros Ha Hk Hmin. pose proof (exponent_bound a k Ha Hk) as He.
  unfold to_nearest. set (e := Z.max (exponent a) (-1022)).
  set (y := a * 2 ^ (52 - e)).
  assert (a == y * 2 ^ (e - 52)) as Hay.
  { unfold y. rewrite <- Qmult_assoc, <- pow2_plus.
    replace (52 - e + (e - 52))%Z with 0%Z by lia. change (2 ^ 0) with 1. ring. }
  assert (inject_Z (nearest_even y) * 2 ^ (e - 52) - a
          == (inject_Z (nearest_even y) - y) * 2 ^ (e - 52)) as ->.
  { transitivity (inject_Z (nearest_even y) * 2 ^ (e - 52) - y * 2 ^ (e - 52));
      [|ring].
    apply Qplus_comp; [reflexivity|]. by apply Qopp_comp. }
  rewrite Qabs_Qmult, (Qabs_pos (2 ^ (e - 52)))
    by apply Qlt_le_weak, pow2_pos.
  apply Qle_trans with ((1 # 2) * 2 ^ (e - 52)).
  { apply Qmult_le_compat_r; [apply nearest_even_error|].
    apply Qlt_le_weak, pow2_pos. }
  change (1 # 2) with (2 ^ (-1)). rewrite <- pow2_plus.
  apply pow2_le. unfold e. lia.
Qed.

Lemma round_positive (x : Q) :
  0 < x → to_nearest x < 2 ^ 1024 → round x = Fin (Qred (to_nearest x)).
Proof.
  intros Hx Hr. unfold round.
  apply Qgt_alt in Hx as ->.
  destruct (Qle_bool (2 ^ 1024) (to_nearest x)) eqn:Hle; [|done].
  apply Qle_bool_iff in Hle. exfalso. by apply (Qlt_not_le _ _ Hr).
Qed.

(** A number between [0] and an integer [n] below [2^53] is rounded to a
    number between [0] and [n], at most half a unit in the last place
    away. *)
Lemma round_bounds (x : Q) (n k : Z) :
  0 <= x → x <= inject_Z n → (n < 2 ^ 53)%Z →
  x < 2 ^ (k + 1) → (-1022 <= k)%Z →
  ∃ r, round x = Fin r ∧ 0 <= r ∧ r <= inject_Z n
       ∧ Qabs (r - x) <= 2 ^ (k - 53).
Proof.
  intros Hx0 Hxn Hn Hk Hmin.
  destruct (Qle_lt_or_eq _ _ Hx0) as [Hpos|Hzero].
  - pose proof (to_nearest_le x n Hpos Hxn Hn) as Hle.
    exists (Qred (to_nearest x)). split.
    { apply round_positive; [done|].
      apply Qle_lt_trans with (inject_Z n); [done|].
      rewrite (pow2_integer 1024) by done. rewrite <- Zlt_Qlt.
      apply Z.lt_trans with (2 ^ 53)%Z; [done|]. by apply Z.pow_lt_mono_r. }
    rewrite !Qred_correct. split; [by apply to_nearest_nonneg|]. split; [done|].
    by apply to_nearest_error.
  - exists 0. split.
    { unfold round. symmetry in Hzero. by apply Qeq_alt in Hzero as ->. }
    split; [done|]. split; [by rewrite <- Hzero in Hxn|].
    rewrite <- Hzero. change (Qabs (0 - 0)) with 0.
    apply Qlt_le_weak, pow2_pos.
Qed.

End Rounding.

(** *** The percentage *)

(** The quotient [matchedPixels / totalPixels] before it is rounded. *)
Lemma similarity_quotient (totalPixels : N) (mismatchedPixels : nat) :
  (0 < totalPixels)%N →
  div (sub (of_Z (Z.of_N totalPixels)) (of_Z (Z.of_nat mismatchedPixels)))
    (of_Z (Z.of_N totalPixels))
  = Fin (Qred ((inject_Z (Z.of_N totalPixels)
                - inject_Z (Z.of_nat mismatchedPixels))
               / inject_Z (Z.of_N totalPixels))).
Proof.
  intros Hpos. unfold of_Z, sub, div.
  assert ((inject_Z (Z.of_N totalPixels) ?= 0)%Q = Gt) as ->.
  { unfold Qcompare. simpl. rewrite Z.mul_1_r. apply Z.compare_gt_iff. lia. }
  f_equal. apply Qred_complete. by rewrite !Qred_correct.
Qed.

(** With no mismatched pixel the similarity is exactly 100. *)
Lemma similarity_identical (totalPixels : N) :
  (0 < totalPixels)%N → similarity totalPixels 0 = Fin 100.
Proof.
  intros Hpos. unfold similarity. rewrite similarity_quotient by done.
  assert (Qred ((inject_Z (Z.of_N totalPixels) - inject_Z (Z.of_nat 0))
                / inject_Z (Z.of_N totalPixels)) = 1%Q) as ->; [|reflexivity].
  transitivity (Qred 1); [|reflexivity].
  apply Qred_complete. change (inject_Z (Z.of_nat 0)) with 0%Q.
  field. intros H.
  assert (0 < inject_Z (Z.of_N totalPixels))%Q as Hlt
    by (rewrite <- (Zlt_Qlt 0); lia).
  rewrite H in Hlt. by apply (Qlt_irrefl 0).
Qed.

(** The similarity of a count of mismatched pixels no larger than the number
    of pixels is a number between 0 and 100, less than [2^(-46)] away from
    the exact value of the formula. *)
Lemma similarity_rounded (totalPixels : N) (mismatchedPixels : nat) :
  (0 < totalPixels)%N →
  (mismatchedPixels ≤ N.to_nat totalPixels)%nat →
  ∃ q, similarity totalPixels mismatchedPixels = Fin q
       ∧ (0 <= q)%Q ∧ (q <= 100)%Q
       ∧ (Qabs (q - (inject_Z (Z.of_N totalPixels)
                     - inject_Z (Z.of_nat mismatchedPixels))
                    / inject_Z (Z.of_N totalPixels) * 100)
          <= 2 ^ (-46))%Q.
Proof.
  intros Hpos Hle.
  destruct mismatchedPixels as [|m].
  { exists 100%Q. split; [by apply similarity_identical|].
    split; [done|]. split; [done|].
    assert ((inject_Z (Z.of_N totalPixels) - inject_Z (Z.of_nat 0))
            / inject_Z (Z.of_N totalPixels) * 100 == 100)%Q as ->; [|done].
    change (inject_Z (Z.of_nat 0)) with 0%Q. field. intros H.
    assert (0 < inject_Z (Z.of_N totalPixels))%Q as Hlt
      by (rewrite <- (Zlt_Qlt 0); lia).
    rewrite H in Hlt. by apply (Qlt_irrefl 0). }
  unfold similarity. rewrite similarity_quotient by done.
  set (t := inject_Z (Z.of_N totalPixels)).
  set (d := inject_Z (Z.of_nat (S m))).
  assert (0 < t)%Q as Ht by (unfold t; rewrite <- (Zlt_Qlt 0); lia).
  assert (1 <= d)%Q as Hd by (unfold d; rewrite <- (Zle_Qle 1); lia).
  assert (d <= t)%Q as Hdt by (unfold t, d; rewrite <- Zle_Qle; lia).
  assert (0 <= (t - d) / t)%Q as Hx0 by (apply Qle_shift_div_l; lra).
  assert ((t - d) / t < 1)%Q as Hx1 by (apply Qlt_shift_div_r; lra).
  destruct (round_bounds (Qred ((t - d) / t)) 1 (-1)) as (r & Hr & Hr0 & Hr1 & Hre).
  { by rewrite Qred_correct. }
  { rewrite Qred_correct. by apply Qlt_le_weak. }
  { done. }
  { by rewrite Qred_correct. }
  { done. }
  simpl Binary64.rounded at 2. rewrite Hr. simpl mul.
  change (inject_Z 1) with 1%Q in Hr1.
  destruct (round_bounds (Qred (r * 100)) 100 6) as (q & Hq & Hq0 & Hq1 & Hqe).
  { rewrite Qred_correct. lra. }
  { rewrite Qred_correct. change (inject_Z 100) with 100%Q. lra. }
  { done. }
  { rewrite Qred_correct. change (2 ^ (6 + 1))%Q with 128%Q. lra. }
  { done. }
  exists q. split; [exact Hq|]. split; [done|]. split; [done|].
  rewrite Qred_correct in Hre, Hqe.
  assert (q - (t - d) / t * 100
          == (q - r * 100) + (r - (t - d) / t) * 100)%Q as -> by ring.
  eapply Qle_trans; [apply Qabs_triangle|].
  rewrite Qabs_Qmult. change (Qabs 100) with 100%Q.
  apply Qle_trans with (2 ^ (6 - 53) + 2 ^ (-1 - 53) * 100)%Q.
  - apply Qplus_le_compat; [done|].
    apply Qmult_le_compat_r; [done|done].
  - by apply (Qle_bool_iff _ _).
Qed.



(** With one mismatched pixel of three the similarity is the binary64 number
    the script returns there, 66.66666666666666, which is neither the exact
    value 200/3 nor the binary64 number nearest to it: the quotient and the
    product are rounded one after the other. *)
Lemma similarity_of_two_thirds :
  similarity 3 1 = Fin (2345624805922133 # 35184372088832)
  ∧ Binary64.round (200 # 3) = Fin (4691249611844267 # 70368744177664).
Proof. split; vm_compute; reflexivity. Qed.

(** On the canvas of the script with 768 mismatched pixels, and for every
    count on the canvases of up to 24 pixels, the similarity is the one the
    IEEE 754 specification of the standard library gives. *)
Lemma similarity_agrees_with_IEEE :
  similarity 1024000 768 = Fin (7031596761953075 # 70368744177664)
  ∧ IEEE.percentage_of_matched 1024000 768 = Fin (7031596761953075 # 70368744177664)
  ∧ Forall (λ t, Forall (λ m, similarity (N.of_nat t) m
                              = IEEE.percentage_of_matched (Z.of_nat t) (Z.of_nat m))
                   (seq 0 (S t)))
      (seq 1 24).
Proof.
  split; [vm_compute; reflexivity|]. split; [vm_compute; reflexivity|].
  repeat match goal with
         | |- Forall _ [] => by apply Forall_nil
         | |- Forall _ (_ :: _) => apply Forall_cons; split
         | |- Forall _ (seq _ _) => progress cbv [seq]
         | |- _ = _ => vm_compute; reflexivity
         end.
Qed.

(** ** Normalization twice *)

Section NormalizeTwice.
Import Normalizer.

Variable resample : image → Z → Z → image.

(** Asked for the size the image already has, the filter returns its
    content unchanged. *)
Hypothesis resample_same_size :
  ∀ src, same_content (resample src (img_width src) (img_height src)) src.

Lemma round_div_exact (a b : Z) : (0 < b)%Z → round_div (a * b) b = a.
Proof.
  intros Hb. unfold round_div. symmetry.
  apply Z.div_unique with b; lia.
Qed.

Lemma fitted_same_size (tw th : Z) :
  (0 < tw)%Z → (0 < th)%Z → fitted tw th tw th = (tw, th).
Proof.
  intros Htw Hth. unfold fitted.
  rewrite (Z.mul_comm th tw), Z.leb_refl.
  by rewrite (Z.mul_comm tw th), round_div_exact.
Qed.

(** C7: normalizing the result of a normalization to the same target
    gives an image of the same size and the same content. *)
Theorem normalize_idempotent (src once : image) (tw th : Z) :
  normalize resample src tw th = Some once →
  ∃ twice,
    normalize resample once tw th = Some twice ∧ same_content twice once.
Proof.
  unfold normalize at 1.
  destruct ((0 <? img_width src) && (0 <? img_height src)
            && (0 <? tw) && (0 <? th))%Z eqn:Hvalid; [|done].
  destruct (fitted (img_width src) (img_height src) tw th) as [fw fh].
  intros [= Honce].
  assert (img_width once = tw) as Hw by (by rewrite <- Honce).
  assert (img_height once = th) as Hh by (by rewrite <- Honce).
  clear Honce.
  apply andb_prop in Hvalid as [[_ Htw]%andb_prop Hth].
  apply Z.ltb_lt in Htw, Hth.
  unfold normalize. rewrite Hw, Hh.
  rewrite (proj2 (Z.ltb_lt 0 tw) Htw), (proj2 (Z.ltb_lt 0 th) Hth).
  simpl andb. rewrite fitted_same_size by done.
  eexists. split; [reflexivity|].
  split; [done|]. split; [done|].
  simpl. intros x y Hx Hy.
  rewrite !Z.sub_diag, Zdiv_0_l, !Z.add_0_l, !Z.sub_0_r.
  rewrite (proj2 (Z.leb_le 0 x)), (proj2 (Z.ltb_lt x tw)),
    (proj2 (Z.leb_le 0 y)), (proj2 (Z.ltb_lt y th)) by lia.
  simpl andb. cbv iota.
  destruct (resample_same_size once) as (Hrw & Hrh & Hpixels).
  rewrite Hrw, Hrh in Hpixels. rewrite Hw, Hh in Hpixels.
  by apply Hpixels.
Qed.
End NormalizeTwice.

Lemma nearest_same_size (src : Normalizer.image) :
  Normalizer.same_content
    (Normalizer.nearest src (Normalizer.img_width src) (Normalizer.img_height src))
    src.
Proof.
  split; [done|]. split; [done|]. simpl. intros x y Hx Hy.
  by rewrite !Z.div_mul by lia.
Qed.

Lemma normalize_idempotent_witness :
  let red : Normalizer.pixel := (Byte.xff, Byte.x00, Byte.x00, Byte.xff) in
  let src := Normalizer.mkImage 2 1 (λ _ _, red) in
  let once := default src (Normalizer.normalize Normalizer.nearest src 4 4) in
  ∃ twice,
    Normalizer.normalize Normalizer.nearest once 4 4 = Some twice
    ∧ Normalizer.same_content twice once.
Proof.
  intros red src once.
  apply (normalize_idempotent Normalizer.nearest nearest_same_size src once 4 4).
  reflexivity.
Defined.

(** ** A scored page, end to end *)

(** What a numeric result of [compareScreenshots] went through. *)
Lemma compareScreenshots_scored (E : externals)
    (baselinePath currentPath diffPath : string) (w w' : world) (s : number) :
  compareScreenshots E baselinePath currentPath diffPath w = (Ok (VNum s), w') →
  ∃ raw1 resized1 raw2 resized2 file1 file2 img1 img2 mismatchedPixels,
    files w !! baselinePath = Some raw1
    ∧ sharp_resize E raw1 1280 800 = Ok resized1
    ∧ <[baselinePath := resized1]> (files w) !! currentPath = Some raw2
    ∧ sharp_resize E raw2 1280 800 = Ok resized2
    ∧ <[currentPath := resized2]> (<[baselinePath := resized1]> (files w))
        !! baselinePath = Some file1
    ∧ <[currentPath := resized2]> (<[baselinePath := resized1]> (files w))
        !! currentPath = Some file2
    ∧ png_read E file1 = Ok img1
    ∧ png_read E file2 = Ok img2
    ∧ width img1 = width img2 ∧ height img1 = height img2
    ∧ pixelmatch E img1 img2 None (width img1) (height img1)
      = Ok mismatchedPixels
    ∧ s = similarity (width img1 * height img1) mismatchedPixels
    ∧ files w'
      = <[diffPath := png_write E (mkRaster (width img1) (height img1)
                                     (draw_mask E img1 img2))]>
          (<[currentPath := resized2]>
             (<[baselinePath := resized1]> (files w))).
Proof.
  intros Hrun. unfold compareScreenshots in Hrun.
  apply bind_Ok_inv in Hrun as (b1 & ? & [-> ->]%existsSync_inv & Hrun).
  apply bind_Ok_inv in Hrun as (b2 & ? & [-> ->]%existsSync_inv & Hrun).
  destruct (negb _ || negb _).
  { apply bind_Ok_inv in Hrun as (? & ? & _ & Hrun). by injection Hrun. }
  apply bind_Ok_inv in Hrun as (u1 & w1 & Hresize1 & Hrun).
  apply bind_Ok_inv in Hrun as (u2 & w2 & Hresize2 & Hrun).
  apply resizeImage_inv in Hresize1 as (raw1 & resized1 & Hraw1 & Hsharp1 & ->).
  apply resizeImage_inv in Hresize2 as (raw2 & resized2 & Hraw2 & Hsharp2 & ->).
  simpl in Hraw2.
  apply bind_Ok_inv in Hrun as (file1 & ? & [Hread1 ->]%readFileSync_inv & Hrun).
  apply bind_Ok_inv in Hrun as (img1 & ? & [Hpng1 ->]%lift_inv & Hrun).
  apply bind_Ok_inv in Hrun as (file2 & ? & [Hread2 ->]%readFileSync_inv & Hrun).
  apply bind_Ok_inv in Hrun as (img2 & ? & [Hpng2 ->]%lift_inv & Hrun).
  simpl in Hread1, Hread2.
  destruct (negb (width img1 =? width img2)%N
            || negb (height img1 =? height img2)%N) eqn:Hsize.
  { apply bind_Ok_inv in Hrun as (? & ? & _ & Hrun). by injection Hrun. }
  apply orb_false_elim in Hsize as [Hw%negb_false_iff%N.eqb_eq
                                    Hh%negb_false_iff%N.eqb_eq].
  apply bind_Ok_inv in Hrun as (? & ? & [_ ->]%lift_inv & Hrun).
  apply bind_Ok_inv in Hrun as ([] & w3 & Hwrite & Hrun).
  injection Hwrite as <-.
  apply bind_Ok_inv in Hrun as (m & ? & [Hmatch ->]%lift_inv & Hrun).
  injection Hrun as <- <-.
  by exists raw1, resized1, raw2, resized2, file1, file2, img1, img2, m.
Qed.

(** X3: with such a decoder, every number [compareScreenshots] returns is a
    percentage between 0 and 100. *)
Lemma compareScreenshots_percentage (E : externals)
    (baselinePath currentPath diffPath : string) (w w' : world) (s : number) :
  decodes_rasters E →
  compareScreenshots E baselinePath currentPath diffPath w = (Ok (VNum s), w') →
  ∃ q, s = Fin q ∧ (0 <= q)%Q ∧ (q <= 100)%Q.
Proof.
  intros Hdecode
    (raw1 & resized1 & raw2 & resized2 & file1 & file2 & img1 & img2 & m
     & _ & _ & _ & _ & _ & _ & Hpng1 & Hpng2 & Hw & Hh & Hmatch & -> & _)
    %compareScreenshots_scored.
  destruct (Hdecode _ _ Hpng1) as [Hwf1 Hpos].
  destruct (Hdecode _ _ Hpng2) as [Hwf2 _].
  destruct (pixelmatch_count E img1 img2 Hwf1 Hwf2 Hw Hh)
    as (m' & Hmatch' & Hle & _).
  assert (m' = m) as -> by congruence.
  destruct (similarity_rounded _ m Hpos Hle) as (q & Hq & Hq0 & Hq100 & _).
  by exists q.
Qed.

(** ** Sanitized names *)

(** X5: the sanitized name of a page path contains no separator, has the
    length of the path, and sanitizing it again changes nothing. *)
Theorem sanitized_name_flat (s : string) :
("/"%char ∉ chars (replace_slash s))
  ∧ String.length (replace_slash s) = String.length s
  ∧ replace_slash (replace_slash s) = replace_slash s.
Proof.
  induction s as [|c s (Hno & Hlen & Hidem)]; simpl.
  - split; [apply not_elem_of_nil|done].
  - split; [|split].
    + apply not_elem_of_cons. split; [|done].
      destruct (Ascii.eqb_spec c "/"); [done|congruence].
    + by rewrite Hlen.
    + rewrite Hidem. f_equal.
      destruct (Ascii.eqb_spec c "/") as [->|Hc]; [done|].
      by destruct (Ascii.eqb_spec c "/").
Qed.

Lemma string_app_inj_l (a x y : string) : (a ++ x = a ++ y)%string → x = y.
Proof. induction a as [|c a IH]; simpl; [done|]. intros [= H]. by apply IH. Qed.

(** X6: the staging, prod and diff files of the loop are different files,
    also for two different pages: no capture of one environment can overwrite
    a capture of the other, and no diff can overwrite a capture. *)
Theorem artifact_directories_disjoint (baseDir p1 p2 : string) :
  path_join3 baseDir "staging" (replace_slash p1 +:+ ".png")
  ≠ path_join3 baseDir "prod" (replace_slash p2 +:+ ".png")
  ∧ path_join3 baseDir "staging" (replace_slash p1 +:+ ".png")
    ≠ path_join3 baseDir "diff" (replace_slash p2 +:+ ".png")
  ∧ path_join3 baseDir "prod" (replace_slash p1 +:+ ".png")
    ≠ path_join3 baseDir "diff" (replace_slash p2 +:+ ".png").
Proof.
  unfold path_join3. repeat split; intros H%string_app_inj_l; discriminate H.
Qed.

(** ** Files the loop writes *)

Lemma writes_only_mono {A} (paths paths' : list string) (m : M A) :
  paths ⊆ paths' → writes_only paths m → writes_only paths' m.
Proof. intros Hsub Hm w other Hother. apply Hm. intros Hin. by apply Hother, Hsub. Qed.

Lemma writes_only_ret {A} (paths : list string) (a : A) :
  writes_only paths (mret a).
Proof. by intros w other _. Qed.

Lemma writes_only_lift {A} (paths : list string) (o : outcome A) :
  writes_only paths (lift o).
Proof. by intros w other _. Qed.

Lemma writes_only_log (paths : list string) (line : string) :
  writes_only paths (log line).
Proof. by intros w other _. Qed.

Lemma writes_only_existsSync (paths : list string) (path : string) :
  writes_only paths (existsSync path).
Proof. by intros w other _. Qed.

Lemma writes_only_readFileSync (paths : list string) (path : string) :
  writes_only paths (readFileSync path).
Proof.
  intros w other _. unfold readFileSync. by destruct (files w !! path).
Qed.

Lemma writes_only_writeFileSync (paths : list string) (path : string)
    (content : bytes) :
  path ∈ paths → writes_only paths (writeFileSync path content).
Proof.
  intros Hin w other Hother. simpl. apply lookup_insert_ne. by intros ->.
Qed.

Lemma writes_only_bind {A B} (paths : list string) (m : M A) (k : A → M B) :
  writes_only paths m → (∀ a, writes_only paths (k a)) →
  writes_only paths (m ≫= k).
Proof.
  intros Hm Hk w other Hother. specialize (Hm w other Hother).
  unfold mbind, M_bind. destruct (m w) as [[a|message] w1]; simpl in *; [|done].
  by rewrite (Hk a w1 other Hother).
Qed.

Lemma writes_only_try_catch {A} (paths : list string) (body : M A)
    (handler : string → M A) :
  writes_only paths body → (∀ message, writes_only paths (handler message)) →
  writes_only paths (try_catch body handler).
Proof.
  intros Hbody Hhandler w other Hother. specialize (Hbody w other Hother).
  unfold try_catch. destruct (body w) as [[a|message] w1]; simpl in *; [done|].
  by rewrite (Hhandler message w1 other Hother).
Qed.

Lemma writes_only_if {A} (paths : list string) (b : bool) (m1 m2 : M A) :
  writes_only paths m1 → writes_only paths m2 →
  writes_only paths (if b then m1 else m2).
Proof. by destruct b. Qed.

Lemma writes_only_resizeImage (E : externals) (paths : list string)
    (path : string) (tw th : N) :
  path ∈ paths → writes_only paths (resizeImage E path tw th).
Proof.
  intros Hin. unfold resizeImage.
  apply writes_only_bind; [apply writes_only_readFileSync|]. intros buffer.
  apply writes_only_bind; [apply writes_only_lift|]. intros resized.
  by apply writes_only_writeFileSync.
Qed.

Lemma writes_only_captureScreenshot (E : externals) (paths : list string)
    (url path : string) :
  path ∈ paths → writes_only paths (captureScreenshot E url path).
Proof.
  intros Hin. unfold captureScreenshot.
  apply writes_only_try_catch; [|intros; apply writes_only_log].
  apply writes_only_bind; [apply writes_only_log|]. intros _.
  apply writes_only_bind; [apply writes_only_lift|]. intros capture.
  apply writes_only_bind; [by apply writes_only_writeFileSync|]. intros _.
  apply writes_only_log.
Qed.

Lemma writes_only_compareScreenshots (E : externals) (paths : list string)
    (baselinePath currentPath diffPath : string) :
  baselinePath ∈ paths → currentPath ∈ paths → diffPath ∈ paths →
  writes_only paths (compareScreenshots E baselinePath currentPath diffPath).
Proof.
  intros Hb Hc Hd. unfold compareScreenshots.
  apply writes_only_bind; [apply writes_only_existsSync|]. intros b1.
  apply writes_only_bind; [apply writes_only_existsSync|]. intros b2.
  apply writes_only_if.
  { apply writes_only_bind; [apply writes_only_log|]. intros _.
    apply writes_only_ret. }
  apply writes_only_bind; [by apply writes_only_resizeImage|]. intros _.
  apply writes_only_bind; [by apply writes_only_resizeImage|]. intros _.
  apply writes_only_bind; [apply writes_only_readFileSync|]. intros file1.
  apply writes_only_bind; [apply writes_only_lift|]. intros img1.
  apply writes_only_bind; [apply writes_only_readFileSync|]. intros file2.
  apply writes_only_bind; [apply writes_only_lift|]. intros img2.
  apply writes_only_if.
  { apply writes_only_bind; [apply writes_only_log|]. intros _.
    apply writes_only_ret. }
  apply writes_only_bind; [apply writes_only_lift|]. intros _.
  apply writes_only_bind; [by apply writes_only_writeFileSync|]. intros _.
  apply writes_only_bind; [apply writes_only_lift|]. intros m.
  apply writes_only_ret.
Qed.

Lemma writes_only_process_page (E : externals) (cfg : config)
    (baseDir p : string) :
  writes_only (artifact_paths baseDir p) (process_page E cfg baseDir p).
Proof.
  unfold process_page, artifact_paths.
  apply writes_only_try_catch; [|intros; apply writes_only_ret].
  apply writes_only_bind.
  { apply writes_only_captureScreenshot. repeat constructor. } intros _.
  apply writes_only_bind.
  { apply writes_only_captureScreenshot. repeat constructor. }
  intros _.
  apply writes_only_bind; [|intros sim; apply writes_only_ret].
  apply writes_only_compareScreenshots; repeat constructor.
Qed.

Lemma writes_only_for_each_page (E : externals) (cfg : config)
    (baseDir : string) (paths : list string) (results : list result) :
  writes_only (paths ≫= artifact_paths baseDir)
    (for_each_page E cfg baseDir paths results).
Proof.
  revert results. induction paths as [|p paths IH]; intros results;
    cbn [for_each_page].
  - apply writes_only_ret.
  - apply writes_only_bind.
    + eapply writes_only_mono; [|apply writes_only_process_page].
      rewrite bind_cons. intros x Hx. apply elem_of_app. by left.
    + intros r. eapply writes_only_mono; [|apply IH].
      rewrite bind_cons. intros x Hx. apply elem_of_app. by right.
Qed.

(** X7: the loop over the pages writes no file but the staging, prod and
    diff artifacts of the pages it is given; every other file is after the
    loop what it was before, whatever fails on the way. *)
Theorem loop_writes_only_artifacts (E : externals) (cfg : config)
    (baseDir : string) (paths : list string) (w : world) (other : string) :
  other ∉ paths ≫= artifact_paths baseDir →
  files (snd (for_each_page E cfg baseDir paths [] w)) !! other
  = files w !! other.
Proof. intros Hother. by apply writes_only_for_each_page. Qed.

Lemma loop_writes_only_artifacts_witness :
  files (snd (for_each_page (Standin.online Standin.blue) Standin.one_page
                "screenshots/Desktop" ["/"]  []
                (mkWorld {[ "notes.txt" := Standin.red ]} [])))
    !! "notes.txt"
  = Some Standin.red.
Proof.
  rewrite (loop_writes_only_artifacts (Standin.online Standin.blue)
             Standin.one_page "screenshots/Desktop" ["/"]
             (mkWorld {[ "notes.txt" := Standin.red ]} []) "notes.txt").
  - reflexivity.
  - apply (bool_decide_unpack _). vm_compute. exact I.
Defined.

(** ** Summary and rows *)

Lemma count_occ_fmap_eq {A} (f : A → string) (g : A → bool) (s : string)
    (l : list A) :
  (∀ x, f x = s ↔ g x = true) →
  count_occ String.string_dec (f <$> l) s = length (List.filter g l).
Proof.
  intros Hfg. induction l as [|x l IH]; [done|].
  rewrite fmap_cons. simpl.
  destruct (String.string_dec (f x) s) as [Heq|Hne], (g x) eqn:Hg; simpl.
  - by rewrite IH.
  - apply Hfg in Heq. congruence.
  - apply Hfg in Hg. congruence.
  - done.
Qed.

Lemma count_occ_fmap_le {A} (f : A → string) (g : A → bool) (s : string)
    (l : list A) :
  (∀ x, g x = true → f x = s) →
  (length (List.filter g l) ≤ count_occ String.string_dec (f <$> l) s)%nat.
Proof.
  intros Hfg. induction l as [|x l IH]; [done|].
  rewrite fmap_cons. simpl.
  destruct (String.string_dec (f x) s) as [Heq|Hne], (g x) eqn:Hg; simpl;
    try lia.
  apply Hfg in Hg. congruence.
Qed.

Lemma ltb_not_geb (p q : number) : ltb p q = true → geb p q = false.
Proof.
  destruct p as [x|[]|], q as [y|[]|]; simpl; try done.
  by intros ->%negb_true_iff.
Qed.

Lemma counts_disjoint (results : list result) :
  (length (List.filter counts_passed results)
   + length (List.filter counts_failed results)
   + length (List.filter counts_error results) ≤ length results)%nat.
Proof.
  induction results as [|r results IH]; [done|]. simpl.
  unfold counts_passed, counts_failed, counts_error in *.
  destruct (similarityPercentage r) as [p|s]; simpl.
  - destruct (ltb p (Fin 95)) eqn:Hlt.
    + rewrite (ltb_not_geb _ _ Hlt). simpl. lia.
    + destruct (geb p (Fin 95)); simpl; lia.
  - destruct (bool_decide (s = "Error")); simpl; lia.
Qed.

(** X8: for every list of results, the Passed figure of the summary is
    the number of rows shown as Pass; the Failed and Errors figures are at
    most the numbers of rows shown as Fail and as Error; and the three
    figures together never exceed the number of pages tested. *)
Theorem summary_agrees_with_rows (E : externals) (cfg : config)
    (results : list result) (deviceName : string) (w : world) :
  ∃ reportPath doc,
    generateHtmlReport E cfg results deviceName w = (Ok (reportPath, doc), w)
    ∧ passed doc
      = count_occ String.string_dec (status_text <$> rows doc) "Pass"
    ∧ (failed doc
       ≤ count_occ String.string_dec (status_text <$> rows doc) "Fail")%nat
    ∧ (errors doc
       ≤ count_occ String.string_dec (status_text <$> rows doc) "Error")%nat
    ∧ (passed doc + failed doc + errors doc ≤ total_pages doc)%nat.
Proof.
  eexists _, _. split; [reflexivity|]. simpl.
  rewrite <- list_fmap_compose.
  assert (∀ s, count_occ String.string_dec
                 ((status_text ∘ render_row E cfg deviceName (files w))
                    <$> array_sort compare_results results) s
               = count_occ String.string_dec
                   ((λ r, snd (status (similarityPercentage r))) <$> results) s)
    as Hcount.
  { intros s. apply Permutation_count_occ.
    by rewrite (array_sort_perm compare_results results). }
  rewrite !Hcount. split; [|split; [|split]].
  - symmetry. apply count_occ_fmap_eq. intros r. unfold counts_passed.
    destruct (similarityPercentage r) as [p|s]; simpl; [|done].
    by destruct (geb p (Fin 95)).
  - apply count_occ_fmap_le. intros r. unfold counts_failed.
    destruct (similarityPercentage r) as [p|s]; simpl; [|done].
    by intros ->%ltb_not_geb.
  - apply count_occ_fmap_le. intros r. unfold counts_error.
    by destruct (similarityPercentage r) as [p|s].
  - apply counts_disjoint.
Qed.

(** ** Displayed percentage *)

Lemma Qfloor_unique (x : Q) (z : Z) :
  (inject_Z z <= x)%Q → (x < inject_Z (z + 1))%Q → Qfloor x = z.
Proof.
  intros Hle Hlt.
  pose proof (Qfloor_le x) as Hfl. pose proof (Qlt_floor x) as Hfu.
  assert (z < Qfloor x + 1)%Z
    by (rewrite Zlt_Qlt; by apply Qle_lt_trans with x).
  assert (Qfloor x < z + 1)%Z
    by (rewrite Zlt_Qlt; by apply Qle_lt_trans with x).
  lia.
Qed.

(** X9: a percentage from 94.995 up to, but not including, 95 is printed
    as "95.00%" and classified as Fail: the figure in the Similarity column
    is rounded, the status is not. *)
Theorem fail_row_may_display_95 (E : externals) (cfg : config)
    (deviceName path : string) (fs : gmap string bytes) (q : Q)
    (err : option string) :
  (94995 # 1000 <= q)%Q → (q < 95)%Q →
  let row := render_row E cfg deviceName fs (mkResult path (VNum (Fin q)) err) in
  similarity_cell row = "95.00%" ∧ status_text row = "Fail".
Proof.
  intros Hlow Hhigh. simpl. split.
  - assert (Qle_bool 0 q = true) as -> by (apply Qle_bool_iff; lra).
    unfold toFixed2_nonneg.
    rewrite (Qfloor_unique (q * 100 + (1 # 2)) 9500).
    + reflexivity.
    + change (inject_Z 9500) with 9500%Q. lra.
    + change (inject_Z (9500 + 1)) with 9501%Q. lra.
  - assert (Qle_bool 95 q = false) as -> by (by apply Qle_bool_false).
    reflexivity.
Qed.

Lemma fail_row_may_display_95_witness :
  let row := render_row Standin.offline Standin.one_page "Desktop" ∅
               (mkResult "/" (VNum (Fin (94999 # 1000))) None) in
  similarity_cell row = "95.00%" ∧ status_text row = "Fail".
Proof.
  apply (fail_row_may_display_95 Standin.offline Standin.one_page "Desktop"
           "/" ∅ (94999 # 1000) None); by apply (Qle_bool_iff _ _) || reflexivity.
Defined.

Lemma report_rows_expected_order_witness :
  ∃ reportPath doc,
    generateHtmlReport Standin.offline Standin.one_page
      [ mkResult "/a" (VNum (Fin 97)) None;
        mkResult "/b" (VStr "Error") None;
        mkResult "/c" (VNum (Fin 97)) None;
        mkResult "/d" (VStr "Error") None;
        mkResult "/e" (VNum (Fin 12)) None ] "Desktop" Standin.empty_world
    = (Ok (reportPath, doc), Standin.empty_world)
    ∧ rows doc
      = render_row Standin.offline Standin.one_page "Desktop" ∅
        <$> expected_order
              [ mkResult "/a" (VNum (Fin 97)) None;
                mkResult "/b" (VStr "Error") None;
                mkResult "/c" (VNum (Fin 97)) None;
                mkResult "/d" (VStr "Error") None;
                mkResult "/e" (VNum (Fin 12)) None ].
Proof.
  apply (report_rows_expected_order Standin.offline Standin.one_page).
  - simpl. lia.
  - repeat constructor.
Defined.

Lemma counts_add_up_witness :
  (length (List.filter counts_passed mixed_outcomes)
   + length (List.filter counts_failed mixed_outcomes)
   + length (List.filter counts_error mixed_outcomes)
   = length mixed_outcomes)%nat.
Proof. apply (counts_add_up mixed_outcomes). repeat constructor. Defined.

(** ** What happens around the comparison *)

(** A page is processed by comparing the files as the two captures leave
    them. *)
Lemma process_page_after_acquisition (E : externals) (cfg : config)
    (baseDir p : string) (w : world) :
  process_page E cfg baseDir p w
  = try_catch
      (similarity ←
         compareScreenshots E
           (path_join3 baseDir "staging" (replace_slash p +:+ ".png"))
           (path_join3 baseDir "prod" (replace_slash p +:+ ".png"))
           (path_join3 baseDir "diff" (replace_slash p +:+ ".png"));
       mret (mkResult p similarity None))
      (λ message, mret (mkResult p (VStr "Error") (Some message)))
      (after_acquisition E cfg baseDir p w).
Proof.
  unfold process_page, after_acquisition, try_catch.
  destruct (captureScreenshot_returns E (baseUrl (staging cfg) +:+ p)
              (path_join3 baseDir "staging" (replace_slash p +:+ ".png")) w)
    as [wa Ha].
  destruct (captureScreenshot_returns E (baseUrl (prod cfg) +:+ p)
              (path_join3 baseDir "prod" (replace_slash p +:+ ".png")) wa)
    as [wb Hb].
  by rewrite !(bind_Ok _ _ _ _ _ Ha), !(bind_Ok _ _ _ _ _ Hb), Hb.
Qed.

(** X10: when both capture files are there but the resize refuses the
    staging capture, the page is recorded as "Error" with the message of the
    resize in its [error] field; no file is changed, nothing is written to the
    console, and the row of the report shows only "Error". *)
Theorem resize_failure_recorded (E : externals) (cfg : config)
    (baseDir p message : string) (w : world) (capture : bytes) :
  let w1 := after_acquisition E cfg baseDir p w in
  files w1 !! path_join3 baseDir "staging" (replace_slash p +:+ ".png")
  = Some capture →
  is_Some (files w1 !! path_join3 baseDir "prod" (replace_slash p +:+ ".png")) →
  sharp_resize E capture 1280 800 = Throw message →
  process_page E cfg baseDir p w
  = (Ok (mkResult p (VStr "Error") (Some message)), w1)
  ∧ ∀ deviceName fs,
      similarity_cell
        (render_row E cfg deviceName fs (mkResult p (VStr "Error") (Some message)))
      = "Error".
Proof.
  intros w1 Hstaging Hprod Hsharp. split; [|done].
  rewrite process_page_after_acquisition. fold w1. clearbody w1.
  assert (resizeImage E
            (path_join3 baseDir "staging" (replace_slash p +:+ ".png"))
            1280 800 w1 = (Throw message, w1)) as Hresize.
  { unfold resizeImage.
    erewrite bind_Ok; [|unfold readFileSync; by rewrite Hstaging].
    by erewrite bind_Throw; [|unfold lift; by rewrite Hsharp]. }
  unfold try_catch, compareScreenshots.
  erewrite bind_Throw; [done|].
  erewrite bind_Ok; [|reflexivity]. erewrite bind_Ok; [|reflexivity].
  rewrite (bool_decide_eq_true_2 _ (mk_is_Some _ _ Hstaging)).
  rewrite (bool_decide_eq_true_2 _ Hprod). simpl.
  by erewrite bind_Throw.
Qed.

Lemma resize_failure_recorded_witness :
  process_page Fixture.garbled Standin.one_page "screenshots/Desktop" "/"
    Standin.empty_world
  = (Ok (mkResult "/" (VStr "Error")
           (Some "Input buffer contains unsupported image format")),
     after_acquisition Fixture.garbled Standin.one_page "screenshots/Desktop"
       "/" Standin.empty_world).
Proof.
  apply (resize_failure_recorded Fixture.garbled Standin.one_page
           "screenshots/Desktop" "/"
           "Input buffer contains unsupported image format"
           Standin.empty_world [Byte.x00]).
  - vm_compute. reflexivity.
  - eexists. vm_compute. reflexivity.
  - reflexivity.
Defined.

(** X11: a capture that fails removes nothing: when both captures of a page
    fail, the files are what they were before, and the page is compared on
    whatever an earlier run left at its two paths. *)
Theorem failed_captures_leave_old_files (E : externals) (cfg : config)
    (baseDir p message1 message2 : string) (w : world) :
  acquire E (baseUrl (staging cfg) +:+ p) = Throw message1 →
  acquire E (baseUrl (prod cfg) +:+ p) = Throw message2 →
  files (after_acquisition E cfg baseDir p w) = files w
  ∧ process_page E cfg baseDir p w
    = try_catch
        (similarity ←
           compareScreenshots E
             (path_join3 baseDir "staging" (replace_slash p +:+ ".png"))
             (path_join3 baseDir "prod" (replace_slash p +:+ ".png"))
             (path_join3 baseDir "diff" (replace_slash p +:+ ".png"));
         mret (mkResult p similarity None))
        (λ message, mret (mkResult p (VStr "Error") (Some message)))
        (mkWorld (files w)
           (console w
            ++ [ "Navigating to: " +:+ baseUrl (staging cfg) +:+ p;
                 "Failed to capture screenshot for "
                 +:+ (baseUrl (staging cfg) +:+ p) +:+ ": " +:+ message1;
                 "Navigating to: " +:+ baseUrl (prod cfg) +:+ p;
                 "Failed to capture screenshot for "
                 +:+ (baseUrl (prod cfg) +:+ p) +:+ ": " +:+ message2 ])).
Proof.
  intros H1 H2.
  assert (after_acquisition E cfg baseDir p w
          = mkWorld (files w)
              (console w
               ++ [ "Navigating to: " +:+ baseUrl (staging cfg) +:+ p;
                    "Failed to capture screenshot for "
                    +:+ (baseUrl (staging cfg) +:+ p) +:+ ": " +:+ message1;
                    "Navigating to: " +:+ baseUrl (prod cfg) +:+ p;
                    "Failed to capture screenshot for "
                    +:+ (baseUrl (prod cfg) +:+ p) +:+ ": " +:+ message2 ]))
    as Hafter.
  { unfold after_acquisition.
    rewrite (bind_Ok _ _ _ _ _ (captureScreenshot_failure E _ _ _ w H1)).
    rewrite (captureScreenshot_failure E _ _ _ _ H2). simpl.
    by rewrite <- !app_assoc. }
  split; [by rewrite Hafter|].
  by rewrite process_page_after_acquisition, Hafter.
Qed.

Lemma failed_captures_leave_old_files_witness :
  files (after_acquisition Fixture.down Standin.one_page "screenshots/Desktop"
           "/" Fixture.earlier_run)
  = files Fixture.earlier_run
  ∧ fst (process_page Fixture.down Standin.one_page "screenshots/Desktop" "/"
           Fixture.earlier_run)
    = Ok (mkResult "/" (VNum (Fin 100)) None).
Proof.
  destruct (failed_captures_leave_old_files Fixture.down Standin.one_page
              "screenshots/Desktop" "/" "net::ERR_CONNECTION_REFUSED"
              "net::ERR_CONNECTION_REFUSED" Fixture.earlier_run
              eq_refl eq_refl) as [Hfiles Hpage].
  split; [exact Hfiles|]. rewrite Hpage. vm_compute. reflexivity.
Defined.

Lemma decodes_rasters_checked (acquire : string → outcome bytes) :
  decodes_rasters (Fixture.checked acquire).
Proof.
  intros file r. simpl. unfold Fixture.read_checked.
  destruct file as [|bw [|bh pixels]]; try done.
  destruct (_ && _) eqn:Hok; [|done]. intros [= <-].
  apply andb_prop in Hok as [Hlen%N.eqb_eq Hpos%N.ltb_lt]. done.
Qed.

Lemma pixelmatch_identical (E : externals) (img1 img2 : raster)
    (output : option N) (w h : N) (m : nat) :
  data img1 = data img2 →
  pixelmatch E img1 img2 output w h = Ok m → m = 0%nat.
Proof.
  intros Hsame. unfold pixelmatch.
  destruct (_ || _); [done|]. destruct (negb _); [done|].
  rewrite bool_decide_eq_true_2 by done. by intros [= <-].
Qed.

(** X12: when the two capture files hold the same bytes and the decoder
    returns rasters with at least one pixel, a comparison that returns at all
    returns exactly 100. *)
Theorem identical_captures_score_100 (E : externals)
    (baselinePath currentPath diffPath : string) (w w' : world)
    (capture : bytes) (v : value) :
  decodes_rasters E →
  files w !! baselinePath = Some capture →
  files w !! currentPath = Some capture →
  compareScreenshots E baselinePath currentPath diffPath w = (Ok v, w') →
  v = VNum (Fin 100).
Proof.
  intros Hdecode Hbase Hcur Hrun. unfold compareScreenshots in Hrun.
  apply bind_Ok_inv in Hrun as (b1 & ? & [-> ->]%existsSync_inv & Hrun).
  apply bind_Ok_inv in Hrun as (b2 & ? & [-> ->]%existsSync_inv & Hrun).
  rewrite Hbase, Hcur in Hrun.
  rewrite (bool_decide_eq_true_2 _ (mk_is_Some _ _ eq_refl)) in Hrun.
  simpl in Hrun.
  apply bind_Ok_inv in Hrun as (u1 & w1 & Hresize1 & Hrun).
  apply bind_Ok_inv in Hrun as (u2 & w2 & Hresize2 & Hrun).
  apply resizeImage_inv in Hresize1 as (raw1 & r1 & Hraw1 & Hsharp1 & ->).
  apply resizeImage_inv in Hresize2 as (raw2 & r2 & Hraw2 & Hsharp2 & ->).
  simpl in Hraw2.
  apply bind_Ok_inv in Hrun as (file1 & ? & [Hread1 ->]%readFileSync_inv & Hrun).
  apply bind_Ok_inv in Hrun as (img1 & ? & [Hpng1 ->]%lift_inv & Hrun).
  apply bind_Ok_inv in Hrun as (file2 & ? & [Hread2 ->]%readFileSync_inv & Hrun).
  apply bind_Ok_inv in Hrun as (img2 & ? & [Hpng2 ->]%lift_inv & Hrun).
  simpl in Hread1, Hread2.
  assert (file1 = file2) as ->.
  { rewrite lookup_insert_eq in Hread2.
    destruct (decide (currentPath = baselinePath)) as [->|Hne].
    - rewrite lookup_insert_eq in Hread1. congruence.
    - rewrite lookup_insert_ne, lookup_insert_eq in Hread1 by done.
      rewrite lookup_insert_ne in Hraw2 by done. congruence. }
  assert (img1 = img2) as -> by congruence.
  rewrite !N.eqb_refl in Hrun. simpl in Hrun.
  apply bind_Ok_inv in Hrun as (? & ? & [_ ->]%lift_inv & Hrun).
  apply bind_Ok_inv in Hrun as ([] & w3 & _ & Hrun).
  apply bind_Ok_inv in Hrun as (m & ? & [Hmatch ->]%lift_inv & Hrun).
  injection Hrun as <- _.
  apply pixelmatch_identical in Hmatch as ->; [|done].
  f_equal. apply similarity_identical. by apply (Hdecode _ _ Hpng2).
Qed.

Lemma identical_captures_score_100_witness :
  ∃ v w',
    compareScreenshots (Fixture.site Standin.red)
      "screenshots/Desktop/staging/_.png" "screenshots/Desktop/prod/_.png"
      "screenshots/Desktop/diff/_.png" Fixture.earlier_run = (Ok v, w')
    ∧ v = VNum (Fin 100).
Proof.
  eexists _, _. split; [vm_compute; reflexivity|].
  eapply (identical_captures_score_100 (Fixture.site Standin.red)
            "screenshots/Desktop/staging/_.png"
            "screenshots/Desktop/prod/_.png"
            "screenshots/Desktop/diff/_.png" Fixture.earlier_run _
            Standin.red).
  - apply decodes_rasters_checked.
  - reflexivity.
  - reflexivity.
  - vm_compute. reflexivity.
Defined.

Lemma bind_frame {A B} (paths : list string) (m : M A) (k : A → M B)
    (w w' : world) (o : outcome B) (d : string) :
  writes_only paths m → d ∉ paths →
  (m ≫= k) w = (o, w') →
  (∃ message, o = Throw message ∧ files w' !! d = files w !! d)
  ∨ (∃ a w1, files w1 !! d = files w !! d ∧ k a w1 = (o, w')).
Proof.
  intros Hm Hd. specialize (Hm w d Hd).
  unfold mbind, M_bind. destruct (m w) as [[a|message] w1]; simpl in Hm.
  - intros Hk. right. by exists a, w1.
  - intros [= <- <-]. left. by exists message.
Qed.

Lemma pixelmatch_without_output (E : externals) (img1 img2 : raster)
    (length : N) (w h : N) (m : nat) :
  pixelmatch E img1 img2 (Some length) w h = Ok m →
  pixelmatch E img1 img2 None w h = Ok m.
Proof.
  unfold pixelmatch.
  destruct (negb (N.of_nat _ =? N.of_nat _)%N); simpl; [done|].
  by destruct (negb (length =? _)%N).
Qed.

(** X13: the diff file of a page is written only when the comparison
    returns a number: when it returns "Error" or "Size mismatch", or throws,
    the file at the diff path is what it was before, so a diff of an earlier
    run stays on disk. *)
Theorem diff_written_only_when_scored (E : externals)
    (baselinePath currentPath diffPath : string) (w w' : world)
    (o : outcome value) :
  diffPath ≠ baselinePath → diffPath ≠ currentPath →
  compareScreenshots E baselinePath currentPath diffPath w = (o, w') →
  (∀ s, o ≠ Ok (VNum s)) →
  files w' !! diffPath = files w !! diffPath.
Proof.
  intros Hb Hc Hrun Hnot.
  assert (diffPath ∉ [baselinePath; currentPath]) as Hout.
  { intros [->|[->|[]%elem_of_nil]%elem_of_cons]%elem_of_cons; done. }
  assert (baselinePath ∈ [baselinePath; currentPath]) as Hin1
    by repeat constructor.
  assert (currentPath ∈ [baselinePath; currentPath]) as Hin2
    by repeat constructor.
  unfold compareScreenshots in Hrun.
  destruct (bind_frame _ _ _ _ _ _ _ (writes_only_existsSync _ _) Hout Hrun)
    as [(? & _ & ?)|(b1 & w1 & H1 & Hrun1)]; [done|]. clear Hrun.
  destruct (bind_frame _ _ _ _ _ _ _ (writes_only_existsSync _ _) Hout Hrun1)
    as [(? & _ & H)|(b2 & w2 & H2 & Hrun)]; [by rewrite H|]. clear Hrun1.
  rewrite <- H1, <- H2. clear H1 H2 w w1.
  destruct (negb b1 || negb b2).
  { destruct (bind_frame _ _ _ _ _ _ _ (writes_only_log _ _) Hout Hrun)
      as [(? & _ & ?)|([] & w3 & H3 & Hrun1)]; [done|].
    by injection Hrun1 as _ <-. }
  destruct (bind_frame _ _ _ _ _ _ _
              (writes_only_resizeImage E _ _ 1280%N 800%N Hin1) Hout Hrun)
    as [(? & _ & ?)|(? & w3 & H3 & Hrun1)]; [done|]. clear Hrun.
  rewrite <- H3. clear H3 w2.
  destruct (bind_frame _ _ _ _ _ _ _
              (writes_only_resizeImage E _ _ 1280%N 800%N Hin2) Hout Hrun1)
    as [(? & _ & ?)|(? & w4 & H4 & Hrun)]; [done|]. clear Hrun1.
  rewrite <- H4. clear H4 w3.
  destruct (bind_frame _ _ _ _ _ _ _ (writes_only_readFileSync _ _) Hout Hrun)
    as [(? & _ & ?)|(file1 & w5 & H5 & Hrun1)]; [done|]. clear Hrun.
  rewrite <- H5. clear H5 w4.
  destruct (bind_frame _ _ _ _ _ _ _ (writes_only_lift _ _) Hout Hrun1)
    as [(? & _ & ?)|(img1 & w6 & H6 & Hrun)]; [done|]. clear Hrun1.
  rewrite <- H6. clear H6 w5.
  destruct (bind_frame _ _ _ _ _ _ _ (writes_only_readFileSync _ _) Hout Hrun)
    as [(? & _ & ?)|(file2 & w7 & H7 & Hrun1)]; [done|]. clear Hrun.
  rewrite <- H7. clear H7 w6.
  destruct (bind_frame _ _ _ _ _ _ _ (writes_only_lift _ _) Hout Hrun1)
    as [(? & _ & ?)|(img2 & w8 & H8 & Hrun)]; [done|]. clear Hrun1.
  rewrite <- H8. clear H8 w7.
  destruct (negb (width img1 =? width img2)%N
            || negb (height img1 =? height img2)%N).
  { destruct (bind_frame _ _ _ _ _ _ _ (writes_only_log _ _) Hout Hrun)
      as [(? & _ & ?)|([] & w9 & H9 & Hrun1)]; [done|].
    by injection Hrun1 as _ <-. }
  destruct (pixelmatch E img1 img2
              (Some (width img1 * height img1 * 4)%N)
              (width img1) (height img1)) as [m|message] eqn:Hmatch.
  - exfalso. apply pixelmatch_without_output in Hmatch.
    unfold mbind, M_bind, lift, writeFileSync in Hrun.
    rewrite Hmatch in Hrun. injection Hrun as <- _. by eapply Hnot.
  - unfold mbind, M_bind, lift in Hrun. by injection Hrun as _ <-.
Qed.

Lemma diff_written_only_when_scored_witness :
  let w := mkWorld {[ "diff.png" := Standin.blue ]} [] in
  files (snd (compareScreenshots Standin.offline "staging.png" "prod.png"
                "diff.png" w)) !! "diff.png"
  = files w !! "diff.png".
Proof.
  intros w.
  apply (diff_written_only_when_scored Standin.offline "staging.png"
           "prod.png" "diff.png" w _ (Ok (VStr "Error"))); try done.
Defined.

Lemma compareScreenshots_percentage_witness :
  ∃ s w' q,
    compareScreenshots (Fixture.site Standin.blue)
      "screenshots/Desktop/staging/_.png" "screenshots/Desktop/prod/_.png"
      "screenshots/Desktop/diff/_.png" Fixture.earlier_run = (Ok (VNum s), w')
    ∧ s = Fin q ∧ (0 <= q)%Q ∧ (q <= 100)%Q.
Proof.
  eexists _, _. 
  destruct (compareScreenshots_percentage (Fixture.site Standin.blue)
              "screenshots/Desktop/staging/_.png"
              "screenshots/Desktop/prod/_.png"
              "screenshots/Desktop/diff/_.png" Fixture.earlier_run
              (snd (compareScreenshots (Fixture.site Standin.blue)
                      "screenshots/Desktop/staging/_.png"
                      "screenshots/Desktop/prod/_.png"
                      "screenshots/Desktop/diff/_.png" Fixture.earlier_run))
              (Fin 100)
              (decodes_rasters_checked _)) as (q & Hq & Hbounds).
  - vm_compute. reflexivity.
  - exists q. split; [vm_compute; reflexivity|]. done.
Defined.

(** ** The results of a run *)

(** What [compareScreenshots] returns when the resize gives the canvas and
    the decoder well-formed rasters: "Error" or a percentage. *)
Lemma compareScreenshots_value (E : externals)
    (baselinePath currentPath diffPath : string) (w w' : world) (v : value) :
  canonical_canvas E → decodes_rasters E →
  compareScreenshots E baselinePath currentPath diffPath w = (Ok v, w') →
  v = VStr "Error" ∨ ∃ q, v = VNum (Fin q) ∧ (0 <= q)%Q ∧ (q <= 100)%Q.
Proof.
  intros Hcanvas Hdecode Hrun. unfold compareScreenshots in Hrun.
  apply bind_Ok_inv in Hrun as (b1 & ? & [-> ->]%existsSync_inv & Hrun).
  apply bind_Ok_inv in Hrun as (b2 & ? & [-> ->]%existsSync_inv & Hrun).
  destruct (negb _ || negb _).
  { apply bind_Ok_inv in Hrun as (? & ? & _ & Hrun). injection Hrun as <- _.
    by left. }
  apply bind_Ok_inv in Hrun as (u1 & w1 & Hresize1 & Hrun).
  apply bind_Ok_inv in Hrun as (u2 & w2 & Hresize2 & Hrun).
  destruct (resized_twice E _ _ _ _ _ _ _ Hresize1 Hresize2)
    as (s1 & r1 & s2 & r2 & Hsharp1 & Hsharp2 & Hfile1 & Hfile2).
  apply bind_Ok_inv in Hrun as (file1 & ? & [Hread1 ->]%readFileSync_inv & Hrun).
  apply bind_Ok_inv in Hrun as (img1 & ? & [Hpng1 ->]%lift_inv & Hrun).
  apply bind_Ok_inv in Hrun as (file2 & ? & [Hread2 ->]%readFileSync_inv & Hrun).
  apply bind_Ok_inv in Hrun as (img2 & ? & [Hpng2 ->]%lift_inv & Hrun).
  assert (file1 = r1) as -> by congruence.
  assert (file2 = r2) as -> by congruence.
  destruct (Hcanvas _ _ _ Hsharp1 Hpng1) as [Hw1 Hh1].
  destruct (Hcanvas _ _ _ Hsharp2 Hpng2) as [Hw2 Hh2].
  destruct (Hdecode _ _ Hpng1) as [Hwf1 Hpos].
  destruct (Hdecode _ _ Hpng2) as [Hwf2 _].
  assert (width img1 = width img2) as Hw by congruence.
  assert (height img1 = height img2) as Hh by congruence.
  rewrite <- Hw, <- Hh, !N.eqb_refl in Hrun. simpl in Hrun.
  apply bind_Ok_inv in Hrun as (? & ? & _ & Hrun).
  apply bind_Ok_inv in Hrun as (? & ? & _ & Hrun).
  apply bind_Ok_inv in Hrun as (m & ? & [Hmatch ->]%lift_inv & Hrun).
  injection Hrun as <- _. right.
  destruct (pixelmatch_count E img1 img2 Hwf1 Hwf2 Hw Hh)
    as (m' & Hmatch' & Hle & _).
  assert (m' = m) as -> by congruence.
  destruct (similarity_rounded _ m Hpos Hle) as (q & Hq & Hq0 & Hq100 & _).
  exists q. by rewrite Hq.
Qed.

Lemma process_page_value (E : externals) (cfg : config) (baseDir p : string)
    (w w' : world) (r : result) :
  canonical_canvas E → decodes_rasters E →
  process_page E cfg baseDir p w = (Ok r, w') →
  similarityPercentage r = VStr "Error"
  ∨ ∃ q, similarityPercentage r = VNum (Fin q) ∧ (0 <= q)%Q ∧ (q <= 100)%Q.
Proof.
  intros Hcanvas Hdecode. unfold process_page, try_catch.
  match goal with |- context [match ?body w with _ => _ end] =>
    destruct (body w) as [[r0|message] w0] eqn:Hbody end.
  - intros [= <- <-].
    apply bind_Ok_inv in Hbody as (_ & w1 & _ & Hbody).
    apply bind_Ok_inv in Hbody as (_ & w2 & _ & Hbody).
    apply bind_Ok_inv in Hbody as (sim & w3 & Hcompare & Hbody).
    injection Hbody as <- _. simpl.
    by eapply compareScreenshots_value.
  - intros [= <- <-]. by left.
Qed.

Lemma for_each_page_values (E : externals) (cfg : config) (baseDir : string)
    (P : result → Prop) (paths : list string) (results all : list result)
    (w w' : world) :
  (∀ p w0 w1 r, process_page E cfg baseDir p w0 = (Ok r, w1) → P r) →
  Forall P results →
  for_each_page E cfg baseDir paths results w = (Ok all, w') →
  Forall P all.
Proof.
  intros Hpage. revert results w.
  induction paths as [|p paths IH]; intros results w Hresults;
    cbn [for_each_page].
  - by intros [= <- _].
  - intros (r & w1 & Hr & Hloop)%bind_Ok_inv.
    apply (IH _ _ (proj2 (Forall_app _ _ _) (conj Hresults
             (Forall_cons_2 _ _ _ (Hpage _ _ _ _ Hr) (Forall_nil_2 _)))) Hloop).
Qed.

Lemma scored_counted_once (r : result) :
  similarityPercentage r = VStr "Error"
  ∨ (∃ q, similarityPercentage r = VNum (Fin q) ∧ (0 <= q)%Q ∧ (q <= 100)%Q) →
  counted_once r.
Proof.
  unfold counted_once, counts_passed, counts_failed, counts_error.
  intros [->|(q & -> & _)]; simpl.
  - right. right. done.
  - destruct (Qle_bool 95 q); [left|right; left]; done.
Qed.

Lemma counted_once_sum (results : list result) :
  Forall counted_once results →
  (length (List.filter counts_passed results)
   + length (List.filter counts_failed results)
   + length (List.filter counts_error results) = length results)%nat.
Proof.
  induction 1 as [|r results Hr _ IH]; [done|]. simpl.
  destruct Hr as [(_ & -> & -> & ->)|[(_ & -> & -> & ->)|(_ & -> & -> & ->)]];
    simpl; lia.
Qed.

Lemma count_status (text : string) (counts : result → bool)
    (results : list result) :
  Forall (λ r, snd (status (similarityPercentage r)) = text
               ↔ counts r = true) results →
  count_occ String.string_dec
    ((λ r, snd (status (similarityPercentage r))) <$> results) text
  = length (List.filter counts results).
Proof.
  induction 1 as [|r results Hr _ IH]; [done|].
  rewrite fmap_cons. simpl.
  destruct (String.string_dec _ text) as [Heq|Hne], (counts r) eqn:Hc; simpl.
  - by rewrite IH.
  - by apply Hr in Heq.
  - destruct Hne. by apply Hr.
  - done.
Qed.

(** C5: in every run with libraries that resize to the canvas and decode
    well-formed rasters, each result the loop hands to the report is counted
    by exactly one of the three counts of the summary, the one of the status
    its row shows ("Error" for every error outcome); the three counts are
    the numbers of rows shown as Pass, Fail and Error, and they add up to the
    number of pages tested. *)
Theorem every_result_counted_once (E : externals) (cfg : config) (w : world) :
  canonical_canvas E → decodes_rasters E →
  ∃ results reportPath doc w',
    compare_test E cfg w = (Ok (results, (reportPath, doc)), w')
    ∧ Forall counted_once results
    ∧ passed doc
      = count_occ String.string_dec (status_text <$> rows doc) "Pass"
    ∧ failed doc
      = count_occ String.string_dec (status_text <$> rows doc) "Fail"
    ∧ errors doc
      = count_occ String.string_dec (status_text <$> rows doc) "Error"
    ∧ (passed doc + failed doc + errors doc = total_pages doc)%nat
    ∧ total_pages doc = length (urls (staging cfg)).
Proof.
  intros Hcanvas Hdecode. unfold compare_test.
  destruct (for_each_page_returns E cfg "screenshots/Desktop"
              (urls (staging cfg)) []
              (mkWorld (files w) (console w ++ ["Running tests..."])))
    as (results & w' & Hloop & Hpaths).
  simpl in Hloop.
  assert (Forall counted_once results) as Hcounted.
  { eapply (for_each_page_values E cfg _ counted_once _ [] results);
      [|done|exact Hloop].
    intros p w0 w1 r Hr. apply scored_counted_once.
    by eapply process_page_value. }
  eexists results, _, _, w'. split.
  { unfold mbind at 1. unfold M_bind at 1. unfold log at 1.
    rewrite (bind_Ok _ _ _ _ _ Hloop). reflexivity. }
  simpl. split; [done|].
  rewrite <- list_fmap_compose.
  assert (∀ s, count_occ String.string_dec
                 ((status_text ∘ render_row E cfg "Desktop" (files w'))
                    <$> array_sort compare_results results) s
               = count_occ String.string_dec
                   ((λ r, snd (status (similarityPercentage r))) <$> results) s)
    as Hcount.
  { intros s. apply Permutation_count_occ.
    by rewrite (array_sort_perm compare_results results). }
  rewrite !Hcount.
  split; [|split; [|split; [|split]]].
  - symmetry. apply count_status.
    eapply Forall_impl; [exact Hcounted|]. intros r Hr.
    destruct Hr as [(-> & -> & _)|[(-> & -> & _)|(-> & -> & _)]]; done.
  - symmetry. apply count_status.
    eapply Forall_impl; [exact Hcounted|]. intros r Hr.
    destruct Hr as [(-> & _ & -> & _)|[(-> & _ & -> & _)|(-> & _ & -> & _)]];
      done.
  - symmetry. apply count_status.
    eapply Forall_impl; [exact Hcounted|]. intros r Hr.
    destruct Hr as [(-> & _ & _ & ->)|[(-> & _ & _ & ->)|(-> & _ & _ & ->)]];
      done.
  - by apply counted_once_sum.
  - by rewrite <- Hpaths, length_fmap.
Qed.

Lemma canonical_canvas_fixture (acquire : string → outcome bytes) :
  canonical_canvas (Fixture.canvas acquire).
Proof.
  intros buffer resized r _. simpl. unfold Fixture.read_canvas.
  destruct (_ =? _)%N; [|done]. by intros [= <-].
Qed.

Lemma decodes_rasters_fixture (acquire : string → outcome bytes) :
  decodes_rasters (Fixture.canvas acquire).
Proof.
  intros file r. simpl. unfold Fixture.read_canvas.
  destruct (_ =? _)%N eqn:Hlen; [|done]. intros [= <-].
  apply N.eqb_eq in Hlen. split; [exact Hlen|done].
Qed.

Lemma every_result_counted_once_witness :
  ∃ results reportPath doc w',
    compare_test Fixture.canvas_site Standin.five_pages Standin.empty_world
    = (Ok (results, (reportPath, doc)), w')
    ∧ Forall counted_once results
    ∧ passed doc
      = count_occ String.string_dec (status_text <$> rows doc) "Pass"
    ∧ failed doc
      = count_occ String.string_dec (status_text <$> rows doc) "Fail"
    ∧ errors doc
      = count_occ String.string_dec (status_text <$> rows doc) "Error"
    ∧ (passed doc + failed doc + errors doc = total_pages doc)%nat
    ∧ total_pages doc = length (urls (staging Standin.five_pages)).
Proof.
  apply (every_result_counted_once Fixture.canvas_site Standin.five_pages
           Standin.empty_world).
  - apply canonical_canvas_fixture.
  - apply decodes_rasters_fixture.
Defined.

(** ** The files of a page at the end of the loop *)


















(** ** The browser tests *)

Section BrowserFacts.
Import Browser.
Context {S : Type} (D : driver S).

Lemma tbind_Ok {A B} (m : T S A) (k : A → T S B) (s s1 : session S) (a : A) :
  m s = (Ok a, s1) → (m ≫= k) s = k a s1.
Proof. unfold mbind, T_bind. by intros ->. Qed.

Lemma tbind_Throw {A B} (m : T S A) (k : A → T S B) (s s1 : session S)
    (message : string) :
  m s = (Throw message, s1) → (m ≫= k) s = (Throw message, s1).
Proof. unfold mbind, T_bind. by intros ->. Qed.

Lemma tbind_Ok_inv {A B} (m : T S A) (k : A → T S B) (s s' : session S) (b : B) :
  (m ≫= k) s = (Ok b, s') → ∃ a s1, m s = (Ok a, s1) ∧ k a s1 = (Ok b, s').
Proof.
  unfold mbind, T_bind. destruct (m s) as [[a|message] s1]; [eauto|done].
Qed.

Lemma say_bind {B} (line : string) (k : unit → T S B) (s : session S) :
  (say line ≫= k) s = k tt (mkSession (page s) (printed s ++ [line])).
Proof. done. Qed.

Lemma call_Ok {A} (f : S → outcome A * S) (s : session S) (a : A) (st : S) :
  f (page s) = (Ok a, st) → call f s = (Ok a, mkSession st (printed s)).
Proof. unfold call. by intros ->. Qed.

Lemma call_Throw {A} (f : S → outcome A * S) (s : session S)
    (message : string) (st : S) :
  f (page s) = (Throw message, st) →
  call f s = (Throw message, mkSession st (printed s)).
Proof. unfold call. by intros ->. Qed.

Lemma call_inv {A} (f : S → outcome A * S) (s s' : session S) (o : outcome A) :
  call f s = (o, s') → f (page s) = (o, page s') ∧ printed s' = printed s.
Proof. unfold call. destruct (f (page s)) as [o' st]. by intros [= <- <-]. Qed.

(** X14: with [axios] unbound, as it is in the file, the check of one image
    makes no request: the page is last touched by reading the [src], and the
    image is counted as broken unless its address is one of the excluded
    ones, in which case the count stays and the exclusion is printed. *)
Theorem image_check_without_axios (url : string) (i brokenImages broken' : nat)
    (s s' : session S) :
  check_image D None url i brokenImages s = (Ok broken', s') →
  page s' = snd (get_attribute D "img" i "src" (page s))
  ∧ (broken' = (brokenImages + 1)%nat
     ∨ broken' = brokenImages
       ∧ ∃ imageUrl,
           includes "bat.bing.com" imageUrl || includes "tracking" imageUrl
           = true
           ∧ printed s'
             = printed s
               ++ [ "Image " +:+ pretty (i + 1)%nat
                    +:+ " is a tracking pixel or excluded URL: " +:+ imageUrl ]).
Proof.
  unfold check_image. intros Hrun.
  apply tbind_Ok_inv in Hrun as (src & s1 & Hsrc & Hrun).
  apply call_inv in Hsrc as [Hsrc Hprinted]. rewrite Hsrc. simpl.
  assert (∀ b s2, (say ("Image " +:+ pretty (i + 1)%nat
                        +:+ " does not have a valid src attribute.")
                   ≫= λ _, mret (brokenImages + 1)%nat) s1 = (Ok b, s2) →
                  page s2 = page s1 ∧ b = (brokenImages + 1)%nat) as Hnone.
  { intros b s2. rewrite say_bind. by intros [= <- <-]. }
  destruct src as [[|c src]|].
  { apply Hnone in Hrun as [-> ->]. auto. }
  2: { apply Hnone in Hrun as [-> ->]. auto. }
  apply tbind_Ok_inv in Hrun as (imageUrl & s2 & Hurl & Hrun).
  assert (page s2 = page s1 ∧ printed s2 = printed s1) as [Hpage2 Hprinted2].
  { destruct (negb _ && negb _).
    - unfold pure_call in Hurl. by injection Hurl as _ <-.
    - destruct (String.prefix "//" _); by injection Hurl as _ <-. }
  destruct (includes "bat.bing.com" imageUrl || includes "tracking" imageUrl)
    eqn:Hexcluded.
  - rewrite say_bind in Hrun. injection Hrun as <- <-. simpl.
    split; [done|]. right. split; [done|]. exists imageUrl.
    split; [done|]. by rewrite Hprinted2, Hprinted.
  - unfold attempt in Hrun. rewrite say_bind in Hrun.
    erewrite tbind_Throw in Hrun by reflexivity.
    rewrite say_bind in Hrun. injection Hrun as <- <-. simpl. auto.
Qed.

(** X15: the loop over the images of a page adds at most one to the count
    of broken images per image: when it returns, the count has not gone
    down and has grown by no more than the number of images looked at,
    whatever [axios] is bound to and whatever the page answers. *)
Theorem image_loop_bound (axios : option (http_client S)) (url : string)
    (remaining i brokenImages broken' : nat) (s s' : session S) :
  image_loop D axios url remaining i brokenImages s = (Ok broken', s') →
  (brokenImages ≤ broken' ≤ brokenImages + remaining)%nat.
Proof.
  revert i brokenImages s.
  induction remaining as [|remaining IH]; intros i brokenImages s; simpl.
  - intros [= <- _]. lia.
  - intros (b1 & s1 & Hcheck & Hloop)%tbind_Ok_inv.
    apply IH in Hloop.
    assert (brokenImages ≤ b1 ≤ brokenImages + 1)%nat; [|lia].
    clear Hloop IH. unfold check_image in Hcheck.
    apply tbind_Ok_inv in Hcheck as (src & s2 & _ & Hcheck).
    assert (∀ line b s3, (say line ≫= λ _, mret b : T S nat) s2 = (Ok b1, s3) →
                         b1 = b) as Hsay.
    { intros line b s3. rewrite say_bind. by intros [= <- _]. }
    destruct src as [[|c src]|];
      [apply Hsay in Hcheck; lia| |apply Hsay in Hcheck; lia].
    apply tbind_Ok_inv in Hcheck as (imageUrl & s3 & _ & Hcheck).
    destruct (_ || _).
    + rewrite say_bind in Hcheck. injection Hcheck as <- _. lia.
    + unfold attempt in Hcheck. rewrite say_bind in Hcheck.
      match type of Hcheck with context [(?m ≫= ?k) ?s0] =>
        destruct (m s0) as [[status|message] s4] eqn:Hget end.
      * erewrite tbind_Ok in Hcheck by exact Hget.
        destruct (negb _); rewrite say_bind in Hcheck;
          injection Hcheck as <- _; lia.
      * erewrite tbind_Throw in Hcheck by exact Hget.
        rewrite say_bind in Hcheck. injection Hcheck as <- _. lia.
Qed.

Lemma check_image_returns (axios : option (http_client S)) (url : string)
    (i brokenImages : nat) (s : session S) :
  responsive D →
  ∃ broken' s', check_image D axios url i brokenImages s = (Ok broken', s').
Proof.
  intros HD. unfold check_image.
  destruct (get_attribute_returns D HD "img" i "src" (page s)) as (src & st & Hsrc).
  rewrite (tbind_Ok _ _ _ _ _ (call_Ok _ _ _ _ Hsrc)).
  destruct src as [[|c src]|]; [rewrite say_bind; by eexists _, _| |
                                rewrite say_bind; by eexists _, _].
  set (s1 := mkSession st (printed s)).
  assert (∃ imageUrl,
            (if negb (String.prefix "http" (String c src))
                && negb (String.prefix "//" (String c src))
             then pure_call (resolve D (String c src) url)
             else if String.prefix "//" (String c src)
                  then mret ("https:" +:+ String c src)
                  else mret (String c src) : T S string) s1
            = (Ok imageUrl, s1)) as [imageUrl Hurl].
  { destruct (negb _ && negb _).
    - destruct (resolve_returns D HD (String c src) url) as [u Hu].
      exists u. unfold pure_call. by rewrite Hu.
    - destruct (String.prefix "//" _); by eexists. }
  rewrite (tbind_Ok _ _ _ _ _ Hurl).
  destruct (_ || _); [rewrite say_bind; by eexists _, _|].
  unfold attempt. rewrite say_bind.
  match goal with |- context [(?m ≫= ?k) ?s0] =>
    destruct (m s0) as [[status|message] s4] eqn:Hget end.
  - rewrite (tbind_Ok _ _ _ _ _ Hget).
    destruct (negb (status =? 200)%N); by eexists _, _.
  - rewrite (tbind_Throw _ _ _ _ _ Hget). by eexists _, _.
Qed.

Lemma image_loop_returns (axios : option (http_client S)) (url : string)
    (remaining i brokenImages : nat) (s : session S) :
  responsive D →
  ∃ broken' s',
    image_loop D axios url remaining i brokenImages s = (Ok broken', s').
Proof.
  intros HD. revert i brokenImages s.
  induction remaining as [|remaining IH]; intros i brokenImages s;
    cbn [image_loop].
  - by eexists _, _.
  - destruct (check_image_returns axios url i brokenImages s HD)
      as (b1 & s1 & Hcheck).
    rewrite (tbind_Ok _ _ _ _ _ Hcheck). apply IH.
Qed.

Lemma check_page_returns (axios : option (http_client S)) (url : string)
    (s : session S) :
  responsive D → ∃ s', check_page D axios url s = (Ok tt, s').
Proof.
  intros HD. unfold check_page. rewrite say_bind.
  match goal with |- context [(call (run D ?c) ≫= ?k) ?s0] =>
    destruct (run_returns D HD c (page s0)) as (st1 & Hgoto);
    rewrite (tbind_Ok _ k s0 _ _ (call_Ok _ _ _ _ Hgoto)) end.
  rewrite !say_bind.
  match goal with |- context [(call (count D ?sel) ≫= ?k) ?s0] =>
    destruct (count_returns D HD sel (page s0)) as (n & st2 & Hcount);
    rewrite (tbind_Ok _ k s0 _ _ (call_Ok _ _ _ _ Hcount)) end.
  rewrite say_bind.
  match goal with |- context [(image_loop D axios url n 0 0 ≫= ?k) ?s0] =>
    destruct (image_loop_returns axios url n 0 0 s0 HD) as (b & s3 & Hloop);
    rewrite (tbind_Ok _ k s0 _ _ Hloop) end.
  destruct (0 <? b)%nat; by eexists.
Qed.

(** X16: broken images never fail the test: on a site that answers every
    call, the loop over the pages returns normally for every list of pages
    and whatever [axios] is bound to or returns; what it found is on the
    console only. *)
Theorem broken_images_never_fail_the_test (axios : option (http_client S))
    (urls : list string) (s : session S) :
  responsive D → ∃ s', check_pages D axios urls s = (Ok tt, s').
Proof.
  intros HD. revert s.
  induction urls as [|url urls IH]; intros s; cbn [check_pages].
  - by eexists.
  - destruct (check_page_returns axios url s HD) as (s1 & Hpage).
    rewrite (tbind_Ok _ _ _ _ _ Hpage). apply IH.
Qed.

(** X17: a page that cannot be loaded ends the test: the error of
    [page.goto] leaves the loop, and none of the pages after it is visited. *)
Theorem navigation_failure_ends_the_image_test
    (axios : option (http_client S)) (url message : string)
    (urls : list string) (s : session S) (st : S) :
  run D (Goto url "domcontentloaded") (page s) = (Throw message, st) →
  check_pages D axios (url :: urls) s
  = (Throw message, mkSession st (printed s ++ ["Navigating to: " +:+ url])).
Proof.
  intros Hgoto. cbn [check_pages]. apply tbind_Throw.
  unfold check_page. rewrite say_bind. apply tbind_Throw.
  by apply call_Throw.
Qed.

(** *** Menus *)

Lemma check_link_returns (menuName linksSelector : string)
    (i invalidLinks : nat) (s : session S) :
  responsive D →
  ∃ invalid' s',
    check_link D menuName linksSelector i invalidLinks s = (Ok invalid', s').
Proof.
  intros HD. unfold check_link.
  destruct (nth_text_content_returns D HD linksSelector i (page s))
    as (text & st1 & Htext).
  rewrite (tbind_Ok _ _ _ _ _ (call_Ok _ _ _ _ Htext)).
  destruct (get_attribute_returns D HD linksSelector i "href" st1)
    as (href & st2 & Hhref).
  rewrite (tbind_Ok _ _ _ _ _ (call_Ok _ (mkSession st1 (printed s)) _ _ Hhref)).
  rewrite say_bind.
  destruct href as [href|]; [destruct (_ || _)|]; rewrite say_bind;
    by eexists _, _.
Qed.

Lemma link_loop_returns (menuName linksSelector : string)
    (remaining i invalidLinks : nat) (s : session S) :
  responsive D →
  ∃ invalid' s',
    link_loop D menuName linksSelector remaining i invalidLinks s
    = (Ok invalid', s').
Proof.
  intros HD. revert i invalidLinks s.
  induction remaining as [|remaining IH]; intros i invalidLinks s;
    cbn [link_loop].
  - by eexists _, _.
  - destruct (check_link_returns menuName linksSelector i invalidLinks s HD)
      as (b1 & s1 & Hcheck).
    rewrite (tbind_Ok _ _ _ _ _ Hcheck). apply IH.
Qed.

Lemma ret_bind {A B} (a : A) (k : A → T S B) (s : session S) :
  (mret a ≫= k) s = k a s.
Proof. done. Qed.

(** One statement of a test on a site that answers: a line on the console,
    or a command the page carries out. *)
Ltac answer HD :=
  first
    [ rewrite say_bind
    | rewrite ret_bind
    | match goal with
      | |- context [(call (run D ?c) ≫= ?k) ?s0] =>
          let st := fresh "st" in
          let H := fresh "H" in
          destruct (run_returns D HD c (page s0)) as (st & H);
          rewrite (tbind_Ok _ k s0 _ _ (call_Ok _ _ _ _ H)); clear H
      end ].

(** X18: links without [href] are only warned about: on a site that
    answers every call and shows at least one element for every selector,
    [verifyMenu] returns normally, however many links are invalid. *)
Theorem invalid_links_only_warn
    (menuName menuSelector submenuSelector linksSelector : string)
    (s : session S) :
  responsive D →
  (∀ selector st, ∃ n st', count D selector st = (Ok (Datatypes.S n), st')) →
  ∃ s',
    verifyMenu D menuName menuSelector submenuSelector linksSelector s
    = (Ok tt, s').
Proof.
  intros HD Hcount. unfold verifyMenu. do 7 answer HD.
  match goal with |- context [(call (first_is_visible D ?sel) ≫= ?k) ?s0] =>
    destruct (first_is_visible_returns D HD sel (page s0)) as (visible & st3 & Hv);
    rewrite (tbind_Ok _ k s0 _ _ (call_Ok _ _ _ _ Hv)); clear Hv end.
  assert (∃ s1, ∀ B (k : unit → T S B),
            ((if negb visible
              then say ("Hover did not reveal the '" +:+ menuName
                        +:+ "' submenu, attempting a click...")
                   ≫= λ _, call (run D (FirstClickForce menuSelector))
              else mret tt) ≫= k)
              (mkSession st3
                 (((printed s ++ ["Locating the '" +:+ menuName +:+ "' menu..."])
                   ++ ["Ensuring '" +:+ menuName +:+ "' menu is visible..."])
                  ++ ["Hovering over the '" +:+ menuName +:+ "' menu..."]))
            = k tt s1) as [s1 Hclick].
  { destruct visible; simpl negb; cbv iota.
    - eexists. intros B k. by rewrite ret_bind.
    - destruct (run_returns D HD (FirstClickForce menuSelector) st3) as (st4 & H4).
      eexists. intros B k. apply tbind_Ok. rewrite say_bind.
      by apply call_Ok. }
  rewrite Hclick. clear Hclick. answer HD.
  match goal with |- context [(call (count D ?sel) ≫= ?k) ?s0] =>
    destruct (Hcount sel (page s0)) as (n1 & st5 & Hn1);
    rewrite (tbind_Ok _ k s0 _ _ (call_Ok _ _ _ _ Hn1)); clear Hn1 end.
  simpl Nat.eqb. cbv iota. do 2 answer HD.
  match goal with |- context [(call (count D ?sel) ≫= ?k) ?s0] =>
    destruct (Hcount sel (page s0)) as (n2 & st6 & Hn2);
    rewrite (tbind_Ok _ k s0 _ _ (call_Ok _ _ _ _ Hn2)); clear Hn2 end.
  simpl Nat.eqb. cbv iota. do 2 answer HD.
  match goal with |- context [(link_loop D ?a ?b ?c ?d ?e ≫= ?k) ?s0] =>
    destruct (link_loop_returns a b c d e s0 HD) as (invalid & s2 & Hloop);
    rewrite (tbind_Ok _ k s0 _ _ Hloop); clear Hloop end.
  answer HD. destruct (0 <? invalid)%nat; by eexists.
Qed.

(** *** Forms *)

Lemma outputs_say_bind {B} (line : string) (k : unit → T S B) (s : session S)
    (o : outcome B) (lines : list string) :
  outputs (k tt) (snd (say line s)) o lines →
  outputs (say line ≫= k) s o (line :: lines).
Proof.
  unfold outputs. intros [Ho Hlines]. split; [exact Ho|].
  etransitivity; [exact Hlines|]. simpl. by rewrite <- app_assoc.
Qed.

Lemma outputs_run_bind {B} (c : command) (k : unit → T S B) (s : session S)
    (o : outcome B) (lines : list string) :
  responsive D →
  outputs (k tt) (snd (call (run D c) s)) o lines →
  outputs (call (run D c) ≫= k) s o lines.
Proof.
  intros HD. destruct (run_returns D HD c (page s)) as (st & Hrun).
  unfold outputs. rewrite (tbind_Ok _ _ _ _ _ (call_Ok _ _ _ _ Hrun)).
  by rewrite (call_Ok _ _ _ _ Hrun).
Qed.

Lemma tbind_assoc {A B C} (m : T S A) (k1 : A → T S B) (k2 : B → T S C)
    (s : session S) :
  ((m ≫= k1) ≫= k2) s = (m ≫= λ a, k1 a ≫= k2) s.
Proof. unfold mbind, T_bind. by destruct (m s) as [[a|message] s1]. Qed.

Lemma outputs_assoc {A B C} (m : T S A) (k1 : A → T S B) (k2 : B → T S C)
    (s : session S) (o : outcome C) (lines : list string) :
  outputs (m ≫= λ a, k1 a ≫= k2) s o lines →
  outputs ((m ≫= k1) ≫= k2) s o lines.
Proof. unfold outputs. by rewrite tbind_assoc. Qed.

Lemma outputs_attempt (body : T S unit) (prefix message : string)
    (s : session S) (lines : list string) :
  outputs body s (Throw message) lines →
  outputs (attempt body (λ message, say (prefix +:+ message))) s (Ok tt)
    (lines ++ [prefix +:+ message]).
Proof.
  unfold outputs, attempt. destruct (body s) as [[[]|message'] s1]; simpl.
  - by intros [? _].
  - intros [[= ->] ->]. split; [done|]. by rewrite app_assoc.
Qed.

(** The confirmation is read, printed, and found different. *)
Lemma check_confirmation_differs {B}
    (selector label expected matches text : string)
    (k : unit → T S B) (s : session S) :
  (∀ st, ∃ st', text_content D selector st = (Ok (Some text), st')) →
  trim D text ≠ expected →
  outputs (check_confirmation D selector label expected matches ≫= k) s
    (Throw (expectation_failure D (trim D text) expected))
    [label +:+ quote +:+ trim D text +:+ quote].
Proof.
  intros Htext Hne. destruct (Htext (page s)) as (st' & Hread).
  assert ((check_confirmation D selector label expected matches ≫= k) s
          = (Throw (expectation_failure D (trim D text) expected),
             mkSession st'
               (printed s ++ [label +:+ quote +:+ trim D text +:+ quote])))
    as Hrun.
  { apply tbind_Throw. unfold check_confirmation.
    rewrite (tbind_Ok _ _ _ _ _ (call_Ok _ _ _ _ Hread)). rewrite say_bind.
    apply tbind_Throw. unfold expect_toBe.
    by rewrite bool_decide_eq_false_2. }
  unfold outputs. by rewrite Hrun.
Qed.

(** One statement of a straight-line script on a site that answers. *)
Ltac follow HD :=
  lazymatch goal with
  | |- outputs (say _ ≫= _) _ _ _ => apply outputs_say_bind
  | |- outputs (call (run _ _) ≫= _) _ _ _ =>
      apply (outputs_run_bind _ _ _ _ _ HD)
  | |- outputs ((_ ≫= _) ≫= _) _ _ _ => apply outputs_assoc
  | |- outputs (clickApplyNowButton _ _ _ ≫= _) _ _ _ =>
      unfold clickApplyNowButton at 1
  | |- outputs (fillAndSubmitForm _ ≫= _) _ _ _ =>
      unfold fillAndSubmitForm at 1
  end;
  cbv beta.

(** X20: a failed expectation does not fail the Request Info test.  On a
    site that answers every call but confirms with another text than
    "Great! Now take the next step.", the test returns normally; the console
    ends with the text found and one "Error during test" line, and the second
    form is never opened. *)
Theorem request_info_swallows_failed_expectation (text : string)
    (s : session S) :
  responsive D →
  (∀ st, ∃ st', text_content D "h1.headline1" st = (Ok (Some text), st')) →
  trim D text ≠ "Great! Now take the next step." →
  fst (request_info_test D s) = Ok tt
  ∧ printed (snd (request_info_test D s))
    = printed s
      ++ [ "Navigating to the staging homepage: https://live-web-sheridan.pantheonsite.io/";
           "Homepage loaded successfully on staging.";
           "Clicking 'Request Info' button in the header...";
           "'Request Info' button clicked.";
           "Request Info form (Header) is now visible.";
           "Filling out the first form...";
           "First form filled successfully.";
           "Clicking on the 'Agree to terms' checkbox...";
           "Checkbox clicked.";
           "Submitting the first form...";
           "First form submitted successfully on staging.";
           "First form confirmation message: " +:+ quote +:+ trim D text
           +:+ quote;
           "Error during test: "
           +:+ expectation_failure D (trim D text)
                 "Great! Now take the next step." ].
Proof.
  intros HD Htext Hne.
  apply (outputs_attempt _ "Error during test: " _ s
           [ _; _; _; _; _; _; _; _; _; _; _; _ ]).
  unfold request_info_body. repeat follow HD.
  by apply check_confirmation_differs.
Qed.

(** X21: the same for the Apply Now test: when the confirmation after the
    header button reads something else than "Great! Now, take the next
    step.", the test returns normally with one "Test failed" line, and the two
    body buttons and the footer button are never clicked. *)
Theorem apply_now_swallows_failed_expectation (text : string)
    (s : session S) :
  responsive D →
  (∀ st, ∃ st', text_content D "h1.headline2" st = (Ok (Some text), st')) →
  trim D text ≠ "Great! Now, take the next step." →
  fst (apply_now_test D s) = Ok tt
  ∧ printed (snd (apply_now_test D s))
    = printed s
      ++ [ "Navigating to the home page: https://live-web-sheridan.pantheonsite.io/";
           "Homepage loaded successfully.";
           "Clicking on the 'Apply Now' button in the header...";
           "Waiting for navigation to: https://live-web-sheridan.pantheonsite.io/apply/";
           "Navigated to the Apply Now form page from the header.";
           "Waiting for the Apply Now form to be visible...";
           "Apply Now form is visible.";
           "Filling out the Apply Now form...";
           "Form fields filled successfully.";
           "Clicking on the 'Agree to terms' checkbox...";
           "Checkbox clicked.";
           "Submitting the Apply Now form...";
           "Waiting for confirmation message...";
           "Confirmation message found: " +:+ quote +:+ trim D text +:+ quote;
           "Test failed: "
           +:+ expectation_failure D (trim D text)
                 "Great! Now, take the next step." ].
Proof.
  intros HD Htext Hne.
  apply (outputs_attempt _ "Test failed: " _ s
           [ _; _; _; _; _; _; _; _; _; _; _; _; _; _ ]).
  unfold apply_now_body. repeat follow HD.
  by apply check_confirmation_differs.
Qed.

(** X22: neither form test can fail by an error of its own: whatever the
    calls on the page return or throw (an element that is not found, a wait
    that times out, a failed expectation), the error is caught and both test
    functions return normally. *)
Theorem form_tests_never_fail (s : session S) :
  fst (request_info_test D s) = Ok tt ∧ fst (apply_now_test D s) = Ok tt.
Proof.
  split.
  - unfold request_info_test, attempt.
    by destruct (request_info_body D s) as [[[]|message] s1].
  - unfold apply_now_test, attempt.
    by destruct (apply_now_body D s) as [[[]|message] s1].
Qed.
End BrowserFacts.

Lemma responsive_static_site (images : list (option string))
    (links : list (option string * option string)) (heading : string) :
  Browser.responsive (Browser.static_site images links heading).
Proof. split; intros; simpl; eauto. Qed.

Lemma image_check_without_axios_witness :
  let D := Browser.static_site [Some "/logo.png"] [] "" in
  let s := Browser.fresh_session in
  let s' := snd (Browser.check_image D None "https://staging.example/" 0 0 s) in
  Browser.page s'
  = snd (Browser.get_attribute D "img" 0%nat "src" (Browser.page s))
  ∧ (1%nat = (0 + 1)%nat
     ∨ 1%nat = 0%nat
       ∧ ∃ imageUrl,
           Browser.includes "bat.bing.com" imageUrl
           || Browser.includes "tracking" imageUrl = true
           ∧ Browser.printed s'
             = Browser.printed s
               ++ [ "Image " +:+ pretty (0 + 1)%nat
                    +:+ " is a tracking pixel or excluded URL: " +:+ imageUrl ]).
Proof.
  intros D s s'.
  apply (image_check_without_axios D "https://staging.example/" 0 0 1 s s').
  vm_compute. reflexivity.
Defined.

Lemma broken_images_never_fail_the_test_witness :
  ∃ s',
    Browser.check_pages
      (Browser.static_site [Some "/logo.png"; None; Some "//cdn.example/tracking.gif"]
         [] "")
      None ["https://staging.example/"; "https://staging.example/about/"]
      Browser.fresh_session
    = (Ok tt, s').
Proof.
  apply (broken_images_never_fail_the_test (Browser.static_site _ _ _)).
  apply responsive_static_site.
Defined.

Lemma navigation_failure_ends_the_image_test_witness :
  Browser.check_pages Browser.unreachable_site None
    ["https://staging.example/"; "https://staging.example/about/"]
    Browser.fresh_session
  = (Throw "net::ERR_NAME_NOT_RESOLVED",
     Browser.mkSession 1%nat ["Navigating to: https://staging.example/"]).
Proof.
  apply (navigation_failure_ends_the_image_test Browser.unreachable_site None
           "https://staging.example/" "net::ERR_NAME_NOT_RESOLVED"
           ["https://staging.example/about/"] Browser.fresh_session 1%nat).
  reflexivity.
Defined.

Lemma invalid_links_only_warn_witness :
  ∃ s',
    Browser.verifyMenu
      (Browser.static_site [None] [(Some "Programs", None); (None, Some " ")] "")
      "Online Programs" "#menu > a" "#menu ul" "#menu ul a"
      Browser.fresh_session
    = (Ok tt, s').
Proof.
  apply (invalid_links_only_warn (Browser.static_site _ _ _)).
  - apply responsive_static_site.
  - intros selector st. simpl. case_bool_decide; by eexists _, _.
Defined.

Lemma request_info_swallows_failed_expectation_witness :
  fst (Browser.request_info_test (Browser.static_site [] [] "Thank you!")
         Browser.fresh_session)
  = Ok tt.
Proof.
  apply (request_info_swallows_failed_expectation
           (Browser.static_site [] [] "Thank you!") "Thank you!"
           Browser.fresh_session).
  - apply responsive_static_site.
  - intros st. simpl. by eexists.
  - discriminate.
Defined.

Lemma apply_now_swallows_failed_expectation_witness :
  fst (Browser.apply_now_test (Browser.static_site [] [] "Thank you!")
         Browser.fresh_session)
  = Ok tt.
Proof.
  apply (apply_now_swallows_failed_expectation
           (Browser.static_site [] [] "Thank you!") "Thank you!"
           Browser.fresh_session).
  - apply responsive_static_site.
  - intros st. simpl. by eexists.
  - discriminate.
Defined.

Lemma image_loop_bound_witness :
  let run :=
    Browser.image_loop
      (Browser.static_site
         [Some "/logo.png"; None; Some "//cdn.example/tracking.gif"] [] "")
      None "https://staging.example/" 3 0 0 Browser.fresh_session in
  ∃ broken', fst run = Ok broken' ∧ (0 ≤ broken' ≤ 0 + 3)%nat.
Proof.
  intros run. eexists. split; [vm_compute; reflexivity|].
  apply (image_loop_bound
           (Browser.static_site
              [Some "/logo.png"; None; Some "//cdn.example/tracking.gif"] [] "")
           None "https://staging.example/" 3 0 0 2 Browser.fresh_session
           (snd run)).
  vm_compute. reflexivity.
Defined.

(** *** A menu without submenu *)

Section MenuFacts.
Import Browser.
Context {S : Type} (D : driver S).

(** X19: a menu that shows no submenu fails the test at the wait.  When the
    submenu is not visible after the hover and waiting for it to be visible
    throws (Playwright's time-out), [verifyMenu] throws that error after the
    forced click: the console has the three lines of the hover and the line
    of the click, the submenus are never counted, and no link is looked
    at. *)
Theorem menu_without_submenu_times_out
    (menuName menuSelector submenuSelector linksSelector message : string)
    (s : session S) :
  (∀ c st, (∀ selector state timeout,
              c ≠ WaitForSelector selector state timeout) →
           ∃ st', run D c st = (Ok tt, st')) →
  (∀ st, ∃ st', first_is_visible D submenuSelector st = (Ok false, st')) →
  (∀ st, ∃ st',
     run D (WaitForSelector submenuSelector (Some "visible") 10000) st
     = (Throw message, st')) →
  ∃ s',
    verifyMenu D menuName menuSelector submenuSelector linksSelector s
    = (Throw message, s')
    ∧ printed s'
      = printed s
        ++ [ "Locating the '" +:+ menuName +:+ "' menu...";
             "Ensuring '" +:+ menuName +:+ "' menu is visible...";
             "Hovering over the '" +:+ menuName +:+ "' menu...";
             "Hover did not reveal the '" +:+ menuName
             +:+ "' submenu, attempting a click..." ].
Proof.
  intros Hrun Hvisible Hwait. unfold verifyMenu.
  assert (∀ B c (k : unit → T S B) s0,
            (∀ selector state timeout,
               c ≠ WaitForSelector selector state timeout) →
            ∃ st, (call (run D c) ≫= k) s0 = k tt (mkSession st (printed s0)))
    as Hstep.
  { intros B c k s0 Hc. destruct (Hrun c (page s0) Hc) as (st & Hst).
    exists st. by rewrite (tbind_Ok _ k s0 _ _ (call_Ok _ _ _ _ Hst)). }
  rewrite say_bind.
  match goal with |- context [(call (run D ?c) ≫= ?k) ?s0] =>
    destruct (Hstep _ c k s0) as (st1 & ->); [done|] end.
  rewrite say_bind.
  match goal with |- context [(call (run D ?c) ≫= ?k) ?s0] =>
    destruct (Hstep _ c k s0) as (st2 & ->); [done|] end.
  rewrite say_bind.
  match goal with |- context [(call (run D ?c) ≫= ?k) ?s0] =>
    destruct (Hstep _ c k s0) as (st3 & ->); [done|] end.
  match goal with |- context [(call (run D ?c) ≫= ?k) ?s0] =>
    destruct (Hstep _ c k s0) as (st4 & ->); [done|] end.
  match goal with |- context [(call (first_is_visible D ?sel) ≫= ?k) ?s0] =>
    destruct (Hvisible (page s0)) as (st5 & Hv);
    rewrite (tbind_Ok _ k s0 _ _ (call_Ok _ _ _ _ Hv)); clear Hv end.
  cbn [negb]. rewrite tbind_assoc, say_bind.
  match goal with |- context [(call (run D ?c) ≫= ?k) ?s0] =>
    destruct (Hstep _ c k s0) as (st6 & ->); [done|] end.
  match goal with |- context [(call (run D ?c) ≫= ?k) ?s0] =>
    destruct (Hwait (page s0)) as (st7 & Hw);
    rewrite (tbind_Throw _ k s0 _ _ (call_Throw _ _ _ _ Hw)); clear Hw end.
  eexists. split; [reflexivity|]. simpl. by rewrite <- !app_assoc.
Qed.
End MenuFacts.

Lemma menu_without_submenu_times_out_witness :
  ∃ s',
    Browser.verifyMenu Browser.menu_without_submenu
      "Online Programs" "#menu > a" "#menu ul" "#menu ul a"
      Browser.fresh_session
    = (Throw "page.waitForSelector: Timeout 10000ms exceeded.", s')
    ∧ Browser.printed s'
      = Browser.printed Browser.fresh_session
        ++ [ "Locating the '" +:+ "Online Programs" +:+ "' menu...";
             "Ensuring '" +:+ "Online Programs" +:+ "' menu is visible...";
             "Hovering over the '" +:+ "Online Programs" +:+ "' menu...";
             "Hover did not reveal the '" +:+ "Online Programs"
             +:+ "' submenu, attempting a click..." ].
Proof.
  apply (menu_without_submenu_times_out Browser.menu_without_submenu).
  - intros c st Hc. destruct c; try (by eexists). exfalso. by eapply Hc.
  - intros st. by eexists.
  - intros st. by eexists.
Defined.
